(** * goodchuck-utils: a shallow embedding of the utility functions, the
      API log store, the clipboard and storage hooks and the changed-fields
      differ of the form inspector, with the properties their specification
      states about them. *)

From Stdlib Require Import ZArith List Ascii String Lia Bool.
From Stdlib Require Import Floats DecimalString.
From stdpp Require Import base gmap strings list.

Set Warnings "-register-all,-inexact-float".

Local Open Scope Z_scope.

(** ** JavaScript strings

    A string is its sequence of code units.  [slice] follows
    String.prototype.slice on integer arguments: a negative index counts
    from the end, both indices are clamped to the length, and an empty range
    yields the empty string. *)
Module JS.

Definition chars (s : string) : list ascii := list_ascii_of_string s.

(** The one-character string made of a double quote. *)
Definition dquote : string := String (ascii_of_nat 34) EmptyString.

Definition of_chars (l : list ascii) : string := string_of_list_ascii l.

Definition length (s : string) : Z := Z.of_nat (String.length s).

Definition rel_index (len i : Z) : Z :=
  if i <? 0 then Z.max (len + i) 0 else Z.min i len.

Definition slice (s : string) (start end_ : Z) : string :=
  let len := length s in
  let from := rel_index len start in
  let to := rel_index len end_ in
  of_chars (take (Z.to_nat (to - from)) (drop (Z.to_nat from) (chars s))).

(** [s.slice(start)]: the end defaults to the length. *)
Definition slice_from (s : string) (start : Z) : string :=
  slice s start (length s).

(** The character class [0-9]. *)
Definition is_digit (c : ascii) : bool :=
  (48 <=? Z.of_nat (nat_of_ascii c)) && (Z.of_nat (nat_of_ascii c) <=? 57).

(** [s.replace(/[^0-9]/g, '')]. *)
Definition strip_non_digits (s : string) : string :=
  of_chars (List.filter is_digit (chars s)).

End JS.

(** ** src/string/manipulation.ts *)
Module Manipulation.

Definition default_suffix : string := "...".

(** [truncate(str, length, suffix = '...')]. *)
Definition truncate (str : string) (length : Z) (suffix : string) : string :=
  if JS.length str <=? length then str
  else JS.slice str 0 length +:+ suffix.

End Manipulation.

(** ** src/form/formatter.ts *)
Module Formatter.

Definition formatPhoneNumber (value : string) : string :=
  let cleaned := JS.strip_non_digits value in
  if JS.length cleaned <=? 3 then cleaned
  else if JS.length cleaned <=? 7 then
    JS.slice cleaned 0 3 +:+ "-" +:+ JS.slice_from cleaned 3
  else if JS.length cleaned <=? 11 then
    JS.slice cleaned 0 3 +:+ "-" +:+ JS.slice cleaned 3 7 +:+ "-"
      +:+ JS.slice_from cleaned 7
  else
    JS.slice cleaned 0 3 +:+ "-" +:+ JS.slice cleaned 3 7 +:+ "-"
      +:+ JS.slice cleaned 7 11.

End Formatter.

(** The layout [formatPhoneNumber] gives to the list of digits left after
    cleaning; the properties relate the formatter to it. *)
Definition phone_groups (d : list ascii) : list ascii :=
  let dash := JS.chars "-" in
  if (length d <=? 3)%nat then d
  else if (length d <=? 7)%nat then take 3 d ++ dash ++ drop 3 d
  else if (length d <=? 11)%nat then
    take 3 d ++ dash ++ take 4 (drop 3 d) ++ dash ++ drop 7 d
  else take 3 d ++ dash ++ take 4 (drop 3 d) ++ dash ++ take 4 (drop 7 d).

(** ** Number formatting utilities (calculateDiscount,
      calculateDiscountedPrice)

    A JavaScript number is an IEEE 754 binary64 value: the kernel's
    primitive floats, with their arithmetic and comparisons. *)
Module NumberFormat.

Local Open Scope float_scope.

(** Math.round: the integer nearest to [x], ties towards +infinity, computed
    exactly on the mantissa and exponent of [x]; NaN, the infinities and the
    zeros are returned as they are, and a result of zero keeps the sign of
    [x]. *)
Definition Math_round (x : float) : float :=
  match Prim2SF x with
  | S754_finite s m e =>
      if (0 <=? e)%Z then x
      else
        let q := (2 ^ (- e))%Z in
        let n := (if s then Z.neg m else Z.pos m) in
        let r := ((2 * n + q) / (2 * q))%Z in
        if (r =? 0)%Z then (if s then neg_zero else zero)
        else if (r <? 0)%Z then - of_uint63 (Uint63.of_Z (- r))
        else of_uint63 (Uint63.of_Z r)
  | _ => x
  end.

(** The divisions a call performs, in order, each with its divisor. *)
Record run := Run { result : float; divisors : list float }.

(** [calculateDiscount(originalPrice, discountedPrice)] with the divisions it
    executes recorded. *)
Definition calculateDiscount_run (originalPrice discountedPrice : float) : run :=
  if originalPrice <=? 0 then Run 0 []
  else
    let discount := ((originalPrice - discountedPrice) / originalPrice) * 100 in
    Run (Math_round (discount * 100) / 100) [originalPrice; 100].

Definition calculateDiscount (originalPrice discountedPrice : float) : float :=
  result (calculateDiscount_run originalPrice discountedPrice).

(** [calculateDiscountedPrice(originalPrice, discountPercent)]. *)
Definition calculateDiscountedPrice (originalPrice discountPercent : float) : float :=
  let discount := (originalPrice * discountPercent) / 100 in
  Math_round ((originalPrice - discount) * 100) / 100.

End NumberFormat.

(** ** src/components/dev/ApiLogger.tsx: the process-wide log store *)
Module ApiLogger.

(** What a caller passes to [addApiLog]: an entry without [id] and
    [timestamp].  The bodies have type [unknown] in the source and are kept
    as opaque text. *)
Record ApiLogInput := {
  in_method : string;
  in_url : string;
  in_status : option Z;
  in_statusText : option string;
  in_duration : option Z;
  in_requestBody : option string;
  in_responseBody : option string;
  in_error : option string
}.

Record ApiLogEntry := {
  id : string;
  timestamp : Z;
  method : string;
  url : string;
  status : option Z;
  statusText : option string;
  duration : option Z;
  requestBody : option string;
  responseBody : option string;
  error : option string
}.

(** The readings [addApiLog] takes from the platform: [Date.now()], the text
    of the [Math.random()] draw, and the instant of [new Date()]. *)
Record Tick := { now : Z; random_text : string; date : Z }.

Definition Z_to_string (z : Z) : string := NilEmpty.string_of_int (Z.to_int z).

Definition newLog (log : ApiLogInput) (t : Tick) : ApiLogEntry := {|
  id := Z_to_string (now t) +:+ "-" +:+ random_text t;
  timestamp := date t;
  method := in_method log;
  url := in_url log;
  status := in_status log;
  statusText := in_statusText log;
  duration := in_duration log;
  requestBody := in_requestBody log;
  responseBody := in_responseBody log;
  error := in_error log
|}.

(** A listener is a callback; it is known by its identity, and calling it is
    recorded as a delivery of the list it was called with. *)
Definition listener := nat.

Record Delivery := { to_listener : listener; delivered : list ApiLogEntry }.

(** The two module-level variables. *)
Record Store := { globalLogs : list ApiLogEntry; logListeners : list listener }.

Definition initial : Store := {| globalLogs := []; logListeners := [] |}.

(** [logListeners.forEach((listener) => listener(logs))]. *)
Definition notify (ls : list listener) (logs : list ApiLogEntry) : list Delivery :=
  map (fun l => {| to_listener := l; delivered := logs |}) ls.

(** [addApiLog(log)]: the new store and the deliveries made during the call. *)
Definition addApiLog (log : ApiLogInput) (t : Tick) (st : Store) : Store * list Delivery :=
  let globalLogs' := take 100 (newLog log t :: globalLogs st) in
  ({| globalLogs := globalLogs'; logListeners := logListeners st |},
   notify (logListeners st) globalLogs').

(** [clearApiLogs()]. *)
Definition clearApiLogs (st : Store) : Store * list Delivery :=
  ({| globalLogs := []; logListeners := logListeners st |},
   notify (logListeners st) []).

(** The component's effect: [logListeners.push(listener)] followed by
    [listener([...globalLogs])], and its cleanup
    [logListeners.filter((l) => l !== listener)]. *)
Definition subscribe (l : listener) (st : Store) : Store * list Delivery :=
  ({| globalLogs := globalLogs st; logListeners := logListeners st ++ [l] |},
   [{| to_listener := l; delivered := globalLogs st |}]).

Definition unsubscribe (l : listener) (st : Store) : Store * list Delivery :=
  ({| globalLogs := globalLogs st;
      logListeners := List.filter (fun l' => negb (Nat.eqb l' l)) (logListeners st) |},
   []).

(** Calls on the store, and the store after a sequence of them. *)
Inductive call :=
| Add (log : ApiLogInput) (t : Tick)
| Clear
| Subscribe (l : listener)
| Unsubscribe (l : listener).

Definition step (st : Store) (c : call) : Store * list Delivery :=
  match c with
  | Add log t => addApiLog log t st
  | Clear => clearApiLogs st
  | Subscribe l => subscribe l st
  | Unsubscribe l => unsubscribe l st
  end.

Definition run (cs : list call) (st : Store) : Store :=
  fold_left (fun s c => fst (step s c)) cs st.

(** The entries added since the last [Clear], newest first. *)
Fixpoint added_since_clear (cs : list call) (acc : list ApiLogEntry) : list ApiLogEntry :=
  match cs with
  | [] => acc
  | Add log t :: cs' => added_since_clear cs' (newLog log t :: acc)
  | Clear :: cs' => added_since_clear cs' []
  | _ :: cs' => added_since_clear cs' acc
  end.

End ApiLogger.

(** ** Exceptions and state, for the hooks that wrap platform calls

    A computation reads and updates a state and either returns a value or
    throws; [try_catch] runs the handler on the state reached at the
    throw. *)
Module Eff.

Inductive result (A : Type) :=
| Ok (a : A)
| Throw (e : string).
Arguments Ok {A} a.
Arguments Throw {A} e.

Definition M (S A : Type) : Type := S -> result A * S.

Definition ret {S A} (a : A) : M S A := fun s => (Ok a, s).

Definition throw {S A} (e : string) : M S A := fun s => (Throw e, s).

Definition bind {S A B} (m : M S A) (k : A -> M S B) : M S B :=
  fun s => match m s with
           | (Ok a, s') => k a s'
           | (Throw e, s') => (Throw e, s')
           end.

Definition try_catch {S A} (body : M S A) (handler : string -> M S A) : M S A :=
  fun s => match body s with
           | (Ok a, s') => (Ok a, s')
           | (Throw e, s') => handler e s'
           end.

Definition modify {S} (f : S -> S) : M S unit := fun s => (Ok tt, f s).

(** A platform call whose outcome the environment decides. *)
Definition lift {S A} (r : result A) : M S A := fun s => (r, s).

End Eff.

Notation "x <- m ;; k" := (Eff.bind m (fun x => k))
  (at level 100, m at next level, right associativity).
Notation "m ;;; k" := (Eff.bind m (fun _ => k))
  (at level 100, right associativity).

(** ** src/hooks/useCopyToClipboard.ts *)
Module Clipboard.

(** [await navigator.clipboard.writeText(text)]: the promise is fulfilled,
    or the write fails.  A rejected promise and a call that throws both
    reach the [catch] clause with their reason, and are one outcome here. *)
Inductive write_outcome :=
| Fulfilled
| Rejected (reason : string).

(** The clipboard object, if any: its [writeText]. *)
Record clipboard := { writeText : string -> write_outcome }.

(** The value of the global [navigator], a binding every browser declares:
    nullish, or an object whose [clipboard] property may be missing. *)
Inductive navigator :=
| NavNullish
| NavObject (clip : option clipboard).

(** The hook's state cell and the console. *)
Record State := { copiedText : option string; console : list string }.

Definition setCopiedText (v : option string) : Eff.M State unit :=
  Eff.modify (fun s => {| copiedText := v; console := console s |}).

Definition console_warn (msg : string) : Eff.M State unit :=
  Eff.modify (fun s => {| copiedText := copiedText s; console := console s ++ [msg] |}).

(** [navigator?.clipboard]. *)
Definition clipboard_of (nav : navigator) : option clipboard :=
  match nav with
  | NavNullish => None
  | NavObject clip => clip
  end.

Definition await_write (c : clipboard) (text : string) : Eff.M State unit :=
  match writeText c text with
  | Fulfilled => Eff.ret tt
  | Rejected reason => Eff.throw reason
  end.

(** The [copy] callback; the result is what the returned promise settles
    to: [Ok b] when it is fulfilled with [b], [Throw] when it is rejected. *)
Definition copy (nav : navigator) (text : string) : Eff.M State bool :=
  match clipboard_of nav with
  | None =>
      console_warn "Clipboard API not supported" ;;;
      Eff.ret false
  | Some c =>
      Eff.try_catch
        (await_write c text ;;;
         setCopiedText (Some text) ;;;
         Eff.ret true)
        (fun error =>
           console_warn "Copy failed" ;;;
           setCopiedText None ;;;
           Eff.ret false)
  end.

Definition reset : Eff.M State unit := setCopiedText None.

End Clipboard.

(** ** The storage-sync hook (useLocalStorage): [readValue] *)
Module LocalStorage.

Section ReadValue.

(** The type of the stored value, and [JSON.parse] at that type: it returns
    the parsed value or throws a SyntaxError. *)
Variable T : Type.
Variable JSON_parse : string -> Eff.result T.

(** [window.localStorage.getItem(key)]: the access may throw (storage
    disabled or denied), and the item is [null] when the key is absent. *)
Record Env := {
  isBrowser : bool;
  getItem : string -> Eff.result (option string)
}.

Definition Console := list string.

Definition console_warn (msg : string) : Eff.M Console unit :=
  Eff.modify (fun c => c ++ [msg]).

(** Truthiness of [item]: [null] and the empty string are falsy. *)
Definition truthy_item (item : option string) : option string :=
  match item with
  | Some EmptyString => None
  | other => other
  end.

Definition readValue (env : Env) (key : string) (initialValue : T) : Eff.M Console T :=
  if negb (isBrowser env) then Eff.ret initialValue
  else
    Eff.try_catch
      (item <- Eff.lift (getItem env key) ;;
       match truthy_item item with
       | Some text => Eff.lift (JSON_parse text)
       | None => Eff.ret initialValue
       end)
      (fun error =>
         console_warn ("Error reading localStorage key " +:+ JS.dquote +:+ key
                         +:+ JS.dquote +:+ ":") ;;;
         Eff.ret initialValue).

End ReadValue.

End LocalStorage.

(** ** src/components/dev/FormDevTools/FormDevTools.tsx: getChangedFields *)
Module FormDevTools.

(** The values a form snapshot is made of.  An object is the list of its
    own enumerable properties in enumeration order, with distinct keys.
    Numbers are the integers; members inherited from the built-in
    prototypes (other than [length]) are not part of the model. *)
Inductive value :=
| VUndefined
| VNull
| VBool (b : bool)
| VNum (n : Z)
| VStr (s : string)
| VArr (items : list value)
| VObj (fields : list (string * value)).

Definition nat_to_string (n : nat) : string :=
  NilEmpty.string_of_uint (Nat.to_uint n).

Definition Z_to_string (z : Z) : string := NilEmpty.string_of_int (Z.to_int z).

(** ToBoolean. *)
Definition truthy (v : value) : bool :=
  match v with
  | VUndefined | VNull => false
  | VBool b => b
  | VNum n => negb (n =? 0)
  | VStr s => negb (String.eqb s "")
  | VArr _ | VObj _ => true
  end.

(** [typeof v === 'object' && v !== null]. *)
Definition is_object (v : value) : bool :=
  match v with
  | VArr _ | VObj _ => true
  | _ => false
  end.

(** The elements of an array or the characters of a string under their
    index keys ["0"], ["1"], ... *)
Definition indexed {A : Type} (from : nat) (l : list A) : list (string * A) :=
  imap (fun i x => (nat_to_string (from + i), x)) l.

(** [Object.keys(v)] paired with [v[key]]. *)
Definition own_entries (v : value) : list (string * value) :=
  match v with
  | VObj fs => fs
  | VArr l => indexed 0 l
  | VStr s => indexed 0 (map (fun c => VStr (String c EmptyString)) (JS.chars s))
  | _ => []
  end.

Definition lookup_entry (key : string) (es : list (string * value)) : option value :=
  snd <$> List.find (fun kv => String.eqb (fst kv) key) es.

(** [acc?.[key]]. *)
Definition get_prop (acc : value) (key : string) : value :=
  match acc with
  | VUndefined | VNull => VUndefined
  | VObj fs => default VUndefined (lookup_entry key fs)
  | VArr _ | VStr _ =>
      if String.eqb key "length"
      then VNum (Z.of_nat (length (own_entries acc)))
      else default VUndefined (lookup_entry key (own_entries acc))
  | VBool _ | VNum _ => VUndefined
  end.

(** [path.split('.')]. *)
Fixpoint split_dot (path : string) : list string :=
  match path with
  | EmptyString => [EmptyString]
  | String c rest =>
      if Ascii.eqb c "." then EmptyString :: split_dot rest
      else match split_dot rest with
           | first :: others => String c first :: others
           | [] => [String c EmptyString]
           end
  end.

(** [path.split('.').reduce((acc, key) => acc?.[key], obj)]. *)
Definition getNestedValue (obj : value) (path : string) : value :=
  fold_left get_prop (split_dot path) obj.

(** *** JSON.stringify *)

Definition hex_digit (n : nat) : string :=
  String.substring n 1 "0123456789abcdef".

Definition escape_char (c : ascii) : string :=
  let n := nat_of_ascii c in
  if Nat.eqb n 34 then "\" +:+ JS.dquote
  else if Nat.eqb n 92 then "\\"
  else if Nat.eqb n 8 then "\b"
  else if Nat.eqb n 9 then "\t"
  else if Nat.eqb n 10 then "\n"
  else if Nat.eqb n 12 then "\f"
  else if Nat.eqb n 13 then "\r"
  else if Nat.ltb n 32 then "\u00" +:+ hex_digit (n / 16) +:+ hex_digit (n mod 16)
  else String c EmptyString.

Definition quote (s : string) : string :=
  JS.dquote +:+ String.concat "" (map escape_char (JS.chars s)) +:+ JS.dquote.

(** [JSON.stringify(v)]: [None] is the result [undefined]. *)
Fixpoint JSON_stringify (v : value) : option string :=
  match v with
  | VUndefined => None
  | VNull => Some "null"
  | VBool true => Some "true"
  | VBool false => Some "false"
  | VNum n => Some (Z_to_string n)
  | VStr s => Some (quote s)
  | VArr items =>
      Some ("[" +:+ String.concat ","
              (map (fun x => default "null" (JSON_stringify x)) items) +:+ "]")
  | VObj fields =>
      Some ("{" +:+ String.concat ","
              (omap (fun kv => match JSON_stringify (snd kv) with
                               | Some text => Some (quote (fst kv) +:+ ":" +:+ text)
                               | None => None
                               end) fields) +:+ "}")
  end.

(** [JSON.stringify(a) !== JSON.stringify(b)]. *)
Definition stringify_differs (a b : value) : bool :=
  negb (bool_decide (JSON_stringify a = JSON_stringify b)).

(** *** The differ *)

Record ChangedField := { from : value; to : value }.

(** [prefix ? `${prefix}.${key}` : key]. *)
Definition fullPathOf (prefix key : string) : string :=
  if negb (String.eqb prefix "") then prefix +:+ "." +:+ key else key.

(** [originalValues ? getNestedValue(originalValues, fullPath) : undefined]. *)
Definition resolve_original (originalValues : value) (fullPath : string) : value :=
  if truthy originalValues then getNestedValue originalValues fullPath
  else VUndefined.

(** The body of the branch [dirtyValue === true]. *)
Definition record_leaf (values originalValues : value) (fullPath : string)
    (changed : gmap string ChangedField) : gmap string ChangedField :=
  let currentValue := getNestedValue values fullPath in
  let originalValue := resolve_original originalValues fullPath in
  if stringify_differs currentValue originalValue
  then <[fullPath := {| from := originalValue; to := currentValue |}]> changed
  else changed.

(** [processDirtyFields(dirty, prefix)], threading the mapping [changed] it
    assigns into.  The keys of an object are visited in enumeration order,
    those of an array are its indices. *)
Fixpoint processDirtyFields (values originalValues : value) (dirty : value)
    (prefix : string) (changed : gmap string ChangedField) {struct dirty}
    : gmap string ChangedField :=
  match dirty with
  | VObj fields =>
      (fix each (fs : list (string * value)) (changed : gmap string ChangedField) :=
         match fs with
         | [] => changed
         | (key, dirtyValue) :: rest =>
             let fullPath := fullPathOf prefix key in
             each rest
               match dirtyValue with
               | VBool true => record_leaf values originalValues fullPath changed
               | VArr _ | VObj _ =>
                   processDirtyFields values originalValues dirtyValue fullPath changed
               | _ => changed
               end
         end) fields changed
  | VArr items =>
      (fix each (i : nat) (l : list value) (changed : gmap string ChangedField) :=
         match l with
         | [] => changed
         | dirtyValue :: rest =>
             let fullPath := fullPathOf prefix (nat_to_string i) in
             each (S i) rest
               match dirtyValue with
               | VBool true => record_leaf values originalValues fullPath changed
               | VArr _ | VObj _ =>
                   processDirtyFields values originalValues dirtyValue fullPath changed
               | _ => changed
               end
         end) 0%nat items changed
  | _ => changed
  end.

(** [getChangedFields()], of [formState.dirtyFields], [values] and
    [originalValues]; a prop that is not supplied is [VUndefined]. *)
Definition getChangedFields (dirtyFields values originalValues : value)
    : gmap string ChangedField :=
  if negb (truthy dirtyFields) || negb (truthy values) then ∅
  else processDirtyFields values originalValues dirtyFields "" ∅.

(** The entry the differ assigns at a path, and the test under which it
    assigns it. *)
Definition entry_at (values originalValues : value) (path : string) : ChangedField :=
  {| from := resolve_original originalValues path;
     to := getNestedValue values path |}.

Definition differs_at (values originalValues : value) (path : string) : bool :=
  stringify_differs (getNestedValue values path)
    (resolve_original originalValues path).

(** The callback of [Object.keys(dirty).forEach], on one key and the marker
    under it. *)
Definition visit (values originalValues : value) (prefix : string)
    (changed : gmap string ChangedField) (kv : string * value)
    : gmap string ChangedField :=
  let fullPath := fullPathOf prefix (fst kv) in
  match snd kv with
  | VBool true => record_leaf values originalValues fullPath changed
  | VArr _ | VObj _ =>
      processDirtyFields values originalValues (snd kv) fullPath changed
  | _ => changed
  end.

(** *** The markers of a tree

    [dirty_leaf dirty chain]: following the keys of [chain] from [dirty]
    through object-valued nodes ends on a marker that is literally
    [true]. *)
Inductive dirty_leaf : value -> list string -> Prop :=
| leaf_here dirty key :
    In (key, VBool true) (own_entries dirty) ->
    dirty_leaf dirty [key]
| leaf_below dirty key sub chain :
    In (key, sub) (own_entries dirty) ->
    is_object sub = true ->
    dirty_leaf sub chain ->
    dirty_leaf dirty (key :: chain).


(** The path the differ builds along a chain, from a prefix. *)
Definition path_from (prefix : string) (chain : list string) : string :=
  fold_left fullPathOf chain prefix.

(** A leaf of [dirty] whose path, built from [prefix], is [p]. *)
Definition reaches (dirty : value) (prefix p : string) : Prop :=
  exists chain, dirty_leaf dirty chain /\ path_from prefix chain = p.

(** The same through one key of the node: the marker under the key is
    [true], or it is an object with such a leaf. *)
Definition reaches_via (prefix : string) (kv : string * value) (p : string) : Prop :=
  (snd kv = VBool true /\ fullPathOf prefix (fst kv) = p) \/
  (is_object (snd kv) = true /\ reaches (snd kv) (fullPathOf prefix (fst kv)) p).

(** What is known of [changed] at a path, and how a step changes it: an
    entry at [p] is the entry of [p]; after the step, [p] has an entry when
    it had it before, or when the step reaches [p] (the condition [R]) and
    the values differ there. *)
Definition agrees (values originalValues : value)
    (changed : gmap string ChangedField) (p : string) : Prop :=
  forall e, changed !! p = Some e -> e = entry_at values originalValues p.

Definition extends (values originalValues : value)
    (changed' changed : gmap string ChangedField) (p : string) (R : Prop) : Prop :=
  forall e,
    changed' !! p = Some e
    <-> changed !! p = Some e
        \/ (R /\ differs_at values originalValues p = true
              /\ e = entry_at values originalValues p).

(** The statement proved of every node, by induction on the marker tree. *)
Definition traversal_ok (values originalValues : value) (dirty : value) : Prop :=
  forall prefix changed p,
    agrees values originalValues changed p ->
    extends values originalValues
      (processDirtyFields values originalValues dirty prefix changed) changed p
      (reaches dirty prefix p).


(** The example of the specification. *)
Definition ex_dirty : value := VObj [("a", VObj [("b", VBool true)])].
Definition ex_current : value := VObj [("a", VObj [("b", VNum 2)])].
Definition ex_original : value := VObj [("a", VObj [("b", VNum 1)])].



End FormDevTools.

(** ** Sample inputs, used to run the definitions on concrete data *)
Module Samples.

Definition log_input : ApiLogger.ApiLogInput := {|
  ApiLogger.in_method := "GET";
  ApiLogger.in_url := "/api/users";
  ApiLogger.in_status := Some 200;
  ApiLogger.in_statusText := Some "OK";
  ApiLogger.in_duration := Some 12;
  ApiLogger.in_requestBody := None;
  ApiLogger.in_responseBody := None;
  ApiLogger.in_error := None
|}.

Definition tick (n : Z) : ApiLogger.Tick :=
  {| ApiLogger.now := n; ApiLogger.random_text := "0.5"; ApiLogger.date := n |}.

(** A store that already holds [n] entries, and one listener. *)
Definition store_with (n : nat) : ApiLogger.Store := {|
  ApiLogger.globalLogs :=
    map (fun i => ApiLogger.newLog log_input (tick (Z.of_nat i))) (seq 0 n);
  ApiLogger.logListeners := [7%nat]
|}.

(** A clipboard that accepts every write, and one that rejects them. *)
Definition clipboard_ok : Clipboard.clipboard :=
  {| Clipboard.writeText := fun _ => Clipboard.Fulfilled |}.


Definition clipboard_state : Clipboard.State :=
  {| Clipboard.copiedText := Some "old"; Clipboard.console := [] |}.

(** [JSON.parse] at the integers, on the two texts the samples store. *)
Definition parse_Z (text : string) : Eff.result Z :=
  if String.eqb text "42" then Eff.Ok 42
  else if String.eqb text "7" then Eff.Ok 7
  else Eff.Throw "SyntaxError".

Definition storage (items : list (string * string)) : LocalStorage.Env := {|
  LocalStorage.isBrowser := true;
  LocalStorage.getItem := fun key =>
    Eff.Ok (snd <$> List.find (fun kv => String.eqb (fst kv) key) items)
|}.

Definition storage_denied : LocalStorage.Env := {|
  LocalStorage.isBrowser := true;
  LocalStorage.getItem := fun _ => Eff.Throw "SecurityError"
|}.

Definition server_side : LocalStorage.Env := {|
  LocalStorage.isBrowser := false;
  LocalStorage.getItem := fun _ => Eff.Throw "ReferenceError"
|}.

End Samples.

(** ** src/form/formatter.ts: the other formatters and the masks *)
Module Formatters.

(** [extractNumbers(value)]. *)
Definition extractNumbers (value : string) : string :=
  JS.strip_non_digits value.

(** [formatBusinessNumber(value)]. *)
Definition formatBusinessNumber (value : string) : string :=
  let cleaned := JS.strip_non_digits value in
  if JS.length cleaned <=? 3 then cleaned
  else if JS.length cleaned <=? 5 then
    JS.slice cleaned 0 3 +:+ "-" +:+ JS.slice_from cleaned 3
  else if JS.length cleaned <=? 10 then
    JS.slice cleaned 0 3 +:+ "-" +:+ JS.slice cleaned 3 5 +:+ "-"
      +:+ JS.slice_from cleaned 5
  else
    JS.slice cleaned 0 3 +:+ "-" +:+ JS.slice cleaned 3 5 +:+ "-"
      +:+ JS.slice cleaned 5 10.



(** ['*'.repeat(7)]. *)
Definition seven_stars : string := "*******".

(** [maskResidentNumber(value)]. *)
Definition maskResidentNumber (value : string) : string :=
  let cleaned := JS.strip_non_digits value in
  if JS.length cleaned <? 6 then cleaned
  else JS.slice cleaned 0 6 +:+ "-" +:+ seven_stars.

(** [maskCreditCard(value)]. *)
Definition maskCreditCard (value : string) : string :=
  let cleaned := JS.strip_non_digits value in
  if JS.length cleaned <? 12 then value
  else JS.slice cleaned 0 4 +:+ "-****-****-" +:+ JS.slice_from cleaned (-4).

(** The layout [formatBusinessNumber] gives to the list of digits left after
    cleaning. *)
Definition business_groups (d : list ascii) : list ascii :=
  let dash := JS.chars "-" in
  if (length d <=? 3)%nat then d
  else if (length d <=? 5)%nat then take 3 d ++ dash ++ drop 3 d
  else if (length d <=? 10)%nat then
    take 3 d ++ dash ++ take 2 (drop 3 d) ++ dash ++ drop 5 d
  else take 3 d ++ dash ++ take 2 (drop 3 d) ++ dash ++ take 5 (drop 5 d).

End Formatters.

(** ** src/string/manipulation.ts: the other string utilities

    Code units are the characters below 256, as everywhere in this
    development; the character classes are given on them. *)
Module Strings.

Definition code (c : ascii) : nat := nat_of_ascii c.

(** The class [\s], which is also what [trim] removes: tab, line feed,
    vertical tab, form feed, carriage return, space and no-break space. *)
Definition is_space (c : ascii) : bool :=
  (Nat.leb 9 (code c) && Nat.leb (code c) 13)
  || Nat.eqb (code c) 32 || Nat.eqb (code c) 160.

(** The class [\w]: [A-Za-z0-9_]. *)
Definition is_word (c : ascii) : bool :=
  (Nat.leb 65 (code c) && Nat.leb (code c) 90)
  || (Nat.leb 97 (code c) && Nat.leb (code c) 122)
  || (Nat.leb 48 (code c) && Nat.leb (code c) 57)
  || Nat.eqb (code c) 95.

Definition is_dash (c : ascii) : bool := Nat.eqb (code c) 45.

Definition is_underscore (c : ascii) : bool := Nat.eqb (code c) 95.

(** [toLowerCase] on one code unit: the letters A-Z, and the capital letters
    of the Latin-1 supplement (all of 192..222 but the multiplication
    sign), move up by 32. *)
Definition lower_char (c : ascii) : ascii :=
  if (Nat.leb 65 (code c) && Nat.leb (code c) 90)
     || (Nat.leb 192 (code c) && Nat.leb (code c) 222 && negb (Nat.eqb (code c) 215))
  then ascii_of_nat (code c + 32) else c.

Fixpoint drop_while (p : ascii -> bool) (l : list ascii) : list ascii :=
  match l with
  | [] => []
  | c :: l' => if p c then drop_while p l' else l
  end.

(** Removing the run of [p] at the start and the run at the end. *)
Definition strip_ends (p : ascii -> bool) (l : list ascii) : list ascii :=
  rev (drop_while p (rev (drop_while p l))).

(** [s.replace(/P+/g, rep)] for a character class [P]: every maximal run of
    characters of the class is replaced by [rep]. *)
Fixpoint replace_runs (p : ascii -> bool) (rep : list ascii) (in_run : bool)
    (l : list ascii) : list ascii :=
  match l with
  | [] => []
  | c :: l' =>
      if p c then
        if in_run then replace_runs p rep true l'
        else rep ++ replace_runs p rep true l'
      else c :: replace_runs p rep false l'
  end.

(** [str.trim()]. *)
Definition trim (l : list ascii) : list ascii := strip_ends is_space l.

(** [normalizeWhitespace(str)]: [str.trim().replace(/\s+/g, ' ')]. *)
Definition normalizeWhitespace (str : string) : string :=
  JS.of_chars (replace_runs is_space (JS.chars " ") false (trim (JS.chars str))).

(** [slugify(str)], one step per line of the source. *)
Definition slugify (str : string) : string :=
  let s1 := map lower_char (JS.chars str) in
  let s2 := trim s1 in
  let s3 := List.filter (fun c => is_word c || is_space c || is_dash c) s2 in
  let s4 := replace_runs (fun c => is_space c || is_underscore c) (JS.chars "-") false s3 in
  let s5 := replace_runs is_dash (JS.chars "-") false s4 in
  let s6 := strip_ends is_dash s5 in
  JS.of_chars s6.

(** [reverse(str)]: [str.split('').reverse().join('')]. *)
Definition reverse (str : string) : string := JS.of_chars (rev (JS.chars str)).

Definition is_lt (c : ascii) : bool := Nat.eqb (code c) 60.

Definition is_gt (c : ascii) : bool := Nat.eqb (code c) 62.

(** [stripHtml(str)]: [str.replace(/<[^>]*>/g, '')].  At a [<] the pattern
    matches when a [>] follows somewhere, and then up to the first one;
    the scan goes on after the match.  [strip_tags] copies, [skip_tag]
    is inside a match. *)
Fixpoint strip_tags (l : list ascii) : list ascii :=
  match l with
  | [] => []
  | c :: l' =>
      if is_lt c && existsb is_gt l' then skip_tag l'
      else c :: strip_tags l'
  end
with skip_tag (l : list ascii) : list ascii :=
  match l with
  | [] => []
  | c :: l' => if is_gt c then strip_tags l' else skip_tag l'
  end.

Definition stripHtml (str : string) : string :=
  JS.of_chars (strip_tags (JS.chars str)).

(** [s.repeat(count)]: a RangeError on a negative count. *)
Definition js_repeat (s : string) (count : Z) : Eff.result string :=
  if count <? 0 then Eff.Throw "RangeError"
  else Eff.Ok (String.concat "" (repeat s (Z.to_nat count))).

(** [mask(str, start, end?, maskChar = '*')]; [end_] is [None] when the
    argument is left out. *)
Definition mask (str : string) (start : Z) (end_ : option Z) (maskChar : string)
    : Eff.result string :=
  let endPos := default (JS.length str) end_ in
  match js_repeat maskChar (endPos - start) with
  | Eff.Ok stars => Eff.Ok (JS.slice str 0 start +:+ stars +:+ JS.slice_from str endPos)
  | Eff.Throw e => Eff.Throw e
  end.

(** No [<] of the list has a [>] after it. *)
Fixpoint no_tag (l : list ascii) : bool :=
  match l with
  | [] => true
  | c :: l' => negb (is_lt c && existsb is_gt l') && no_tag l'
  end.

(** The first character of the list, if any, is not in the class. *)
Definition no_leading (p : ascii -> bool) (l : list ascii) : bool :=
  match l with
  | [] => true
  | c :: _ => negb (p c)
  end.

(** No character of the class follows another one; with [after] set, none
    stands at the start either. *)
Fixpoint single_runs (p : ascii -> bool) (after : bool) (l : list ascii) : bool :=
  match l with
  | [] => true
  | c :: l' =>
      if p c then negb after && single_runs p true l'
      else single_runs p false l'
  end.

(** A string is tidy when its whitespace is single spaces between other
    characters: every whitespace character is a space, none stands at the
    start or at the end, and no two are in a row. *)
Definition tidy (l : list ascii) : bool :=
  forallb (fun c => negb (is_space c) || Nat.eqb (code c) 32) l
  && single_runs is_space true l
  && no_leading is_space (rev l).

(** The letters A-Z. *)
Definition is_upper (c : ascii) : bool :=
  Nat.leb 65 (code c) && Nat.leb (code c) 90.

(** What the third step of [slugify] keeps: [\w], [\s] and the dash. *)
Definition slug_kept (c : ascii) : bool := is_word c || is_space c || is_dash c.

(** What its fourth step turns into a dash: [\s] and the underscore. *)
Definition slug_gap (c : ascii) : bool := is_space c || is_underscore c.

(** The six steps of [slugify] on the code units. *)
Definition slug_steps (l : list ascii) : list ascii :=
  strip_ends is_dash
    (replace_runs is_dash ["-"%char] false
       (replace_runs slug_gap ["-"%char] false
          (List.filter slug_kept (trim (map lower_char l))))).

(** The characters of a slug: lower-case letters, digits and the dash. *)
Definition is_slug_char (c : ascii) : bool :=
  (Nat.leb 97 (code c) && Nat.leb (code c) 122)
  || (Nat.leb 48 (code c) && Nat.leb (code c) 57)
  || is_dash c.

(** A slug holds slug characters only, with single dashes between other
    characters: none at the start, none at the end, no two in a row. *)
Definition is_slug (l : list ascii) : bool :=
  forallb is_slug_char l
  && single_runs is_dash true l
  && no_leading is_dash (rev l).

End Strings.

(** ** The storage-sync hook (useLocalStorage): [setValue], [removeValue]
    and the storage listener

    The storage is shared by every instance of the hook; each instance has
    its own [storedValue]. *)
Module StorageHook.

Section Hook.

Variable T : Type.

(** [JSON.parse] at [T], and the text [setItem] receives for
    [JSON.stringify(newValue)]. *)
Variable JSON_parse : string -> Eff.result T.
Variable JSON_stringify : T -> string.

(** The platform: whether there is a [window], whether reaching
    [window.localStorage] throws (storage denied), and which writes the
    storage accepts (a write over the quota throws). *)
Record Platform := {
  isBrowser : bool;
  denied : bool;
  accepts : string -> string -> bool
}.

(** What the instances share: the stored items, the events dispatched on
    [window], and the console. *)
Record Shared := {
  items : gmap string string;
  events : list string;
  console : list string
}.

(** The state a call of one instance works on: the shared part and the
    instance's [storedValue]. *)
Definition State : Type := Shared * T.

Definition console_warn (msg : string) : Eff.M State unit :=
  Eff.modify (fun s : State =>
    ({| items := items (fst s); events := events (fst s);
        console := console (fst s) ++ [msg] |}, snd s)).

Definition setStoredValue (v : T) : Eff.M State unit :=
  Eff.modify (fun s : State => (fst s, v)).

Definition dispatchEvent (name : string) : Eff.M State unit :=
  Eff.modify (fun s : State =>
    ({| items := items (fst s); events := events (fst s) ++ [name];
        console := console (fst s) |}, snd s)).

(** [window.localStorage.setItem(key, text)]. *)
Definition setItem (pf : Platform) (key text : string) : Eff.M State unit :=
  fun s =>
    if denied pf then (Eff.Throw "SecurityError", s)
    else if accepts pf key text then
      (Eff.Ok tt,
       ({| items := <[key := text]> (items (fst s)); events := events (fst s);
           console := console (fst s) |}, snd s))
    else (Eff.Throw "QuotaExceededError", s).

(** [window.localStorage.removeItem(key)]. *)
Definition removeItem (pf : Platform) (key : string) : Eff.M State unit :=
  fun s =>
    if denied pf then (Eff.Throw "SecurityError", s)
    else
      (Eff.Ok tt,
       ({| items := delete key (items (fst s)); events := events (fst s);
           console := console (fst s) |}, snd s)).

(** The storage as [readValue] sees it. *)
Definition env_of (pf : Platform) (sh : Shared) : LocalStorage.Env := {|
  LocalStorage.isBrowser := isBrowser pf;
  LocalStorage.getItem := fun key =>
    if denied pf then Eff.Throw "SecurityError" else Eff.Ok (items sh !! key)
|}.

(** [readValue()] of an instance, on the shared state. *)
Definition readValue (pf : Platform) (key : string) (initialValue : T)
    : Eff.M State T :=
  fun s =>
    match LocalStorage.readValue T JSON_parse (env_of pf (fst s)) key initialValue
            (console (fst s)) with
    | (r, console') =>
        (r, ({| items := items (fst s); events := events (fst s);
                console := console' |}, snd s))
    end.

(** The argument of [setValue]: a value, or a function of the current
    value. *)
Inductive SetStateAction :=
| Value (v : T)
| Update (f : T -> T).

Definition setValue (pf : Platform) (key : string) (value : SetStateAction)
    : Eff.M State unit :=
  if negb (isBrowser pf) then
    console_warn ("Tried setting localStorage key " +:+ JS.dquote +:+ key
                    +:+ JS.dquote +:+ " even though environment is not a client")
  else
    Eff.try_catch
      (fun s =>
         let newValue := match value with
                         | Value v => v
                         | Update f => f (snd s)
                         end in
         (setItem pf key (JSON_stringify newValue) ;;;
          setStoredValue newValue ;;;
          dispatchEvent "local-storage") s)
      (fun error =>
         console_warn ("Error setting localStorage key " +:+ JS.dquote +:+ key
                         +:+ JS.dquote +:+ ":")).

Definition removeValue (pf : Platform) (key : string) (initialValue : T)
    : Eff.M State unit :=
  if negb (isBrowser pf) then Eff.ret tt
  else
    Eff.try_catch
      (removeItem pf key ;;;
       setStoredValue initialValue ;;;
       dispatchEvent "local-storage")
      (fun error =>
         console_warn ("Error removing localStorage key " +:+ JS.dquote +:+ key
                         +:+ JS.dquote +:+ ":")).

(** The event a listener receives: the [key] of a native storage event
    ([None] when it is [null], as after [clear()]), or no [key] property at
    all for the event the hook dispatches itself. *)
Inductive StorageEvent :=
| Native (key : option string)
| Custom.

(** ['key' in e && e.key && e.key !== key]. *)
Definition other_key (e : StorageEvent) (key : string) : bool :=
  match e with
  | Native (Some k) => negb (String.eqb k "") && negb (String.eqb k key)
  | _ => false
  end.

(** [handleStorageChange(e)] of an instance mounted in a browser. *)
Definition handleStorageChange (pf : Platform) (key : string) (initialValue : T)
    (e : StorageEvent) : Eff.M State unit :=
  if other_key e key then Eff.ret tt
  else (v <- readValue pf key initialValue ;; setStoredValue v).

End Hook.

End StorageHook.

(** ** src/components/dev/ApiLogger.tsx: what the listeners receive *)
Module LogPanel.

(** The deliveries made during a sequence of calls, in order. *)
Fixpoint run_trace (cs : list ApiLogger.call) (st : ApiLogger.Store)
    : list ApiLogger.Delivery :=
  match cs with
  | [] => []
  | c :: cs' =>
      snd (ApiLogger.step st c) ++ run_trace cs' (fst (ApiLogger.step st c))
  end.

(** [Array.prototype.slice(start, end)], with the index rules of
    [String.prototype.slice]. *)
Definition list_slice {A : Type} (l : list A) (start end_ : Z) : list A :=
  let len := Z.of_nat (length l) in
  let from := JS.rel_index len start in
  let to := JS.rel_index len end_ in
  take (Z.to_nat (to - from)) (drop (Z.to_nat from) l).

(** What the component's listener passes to [setLogs]:
    [newLogs.slice(0, maxLogs)]. *)
Definition shown (maxLogs : Z) (newLogs : list ApiLogger.ApiLogEntry)
    : list ApiLogger.ApiLogEntry :=
  list_slice newLogs 0 maxLogs.

End LogPanel.

(** ** src/hooks/useCopyToClipboard.ts: sequences of calls *)
Module ClipboardRuns.

(** A call on the hook, with the [navigator] it meets. *)
Inductive call :=
| Copy (nav : Clipboard.navigator) (text : string)
| Reset.

Definition step (st : Clipboard.State) (c : call) : Clipboard.State :=
  match c with
  | Copy nav text => snd (Clipboard.copy nav text st)
  | Reset => snd (Clipboard.reset st)
  end.

Definition run (cs : list call) (st : Clipboard.State) : Clipboard.State :=
  fold_left step cs st.

(** The hook's state on mount: [useState(null)]. *)
Definition initial : Clipboard.State :=
  {| Clipboard.copiedText := None; Clipboard.console := [] |}.

(** The call writes its text to a clipboard, with success. *)
Definition writes (c : call) (t : string) : Prop :=
  exists nav clip,
    c = Copy nav t /\ Clipboard.clipboard_of nav = Some clip /\
    Clipboard.writeText clip t = Clipboard.Fulfilled.

End ClipboardRuns.

(** ** Sample platform and values for the storage hook *)
Module StorageSamples.

Definition stringify_Z (z : Z) : string := ApiLogger.Z_to_string z.

Definition browser : StorageHook.Platform := {|
  StorageHook.isBrowser := true;
  StorageHook.denied := false;
  StorageHook.accepts := fun _ _ => true
|}.

(** A browser whose storage is full. *)
Definition full : StorageHook.Platform := {|
  StorageHook.isBrowser := true;
  StorageHook.denied := false;
  StorageHook.accepts := fun _ _ => false
|}.

Definition empty : StorageHook.Shared := {|
  StorageHook.items := ∅;
  StorageHook.events := [];
  StorageHook.console := []
|}.

End StorageSamples.

(** * Properties *)

(** ** Strings *)

Lemma chars_of_chars (l : list ascii) : JS.chars (JS.of_chars l) = l.
Proof. apply list_ascii_of_string_of_list_ascii. Qed.

Lemma of_chars_chars (s : string) : JS.of_chars (JS.chars s) = s.
Proof. apply string_of_list_ascii_of_string. Qed.

Lemma chars_inj (s t : string) : JS.chars s = JS.chars t -> s = t.
Proof.
  intros H. rewrite <- (of_chars_chars s), <- (of_chars_chars t). now rewrite H.
Qed.

Lemma chars_length (s : string) : length (JS.chars s) = String.length s.
Proof. induction s as [|c s IH]; simpl; [reflexivity | now rewrite IH]. Qed.

Lemma js_length_chars (s : string) : JS.length s = Z.of_nat (length (JS.chars s)).
Proof. unfold JS.length. now rewrite chars_length. Qed.

Lemma chars_app (s t : string) : JS.chars (s +:+ t) = JS.chars s ++ JS.chars t.
Proof. induction s as [|c s IH]; simpl; [reflexivity | now rewrite IH]. Qed.

(** [slice] between two non-negative indices, on the code units. *)
Lemma chars_slice (s : string) (a b : Z) :
  0 <= a -> 0 <= b ->
  JS.chars (JS.slice s a b)
  = take (Z.to_nat b - Z.to_nat a) (drop (Z.to_nat a) (JS.chars s)).
Proof.
  intros Ha Hb. unfold JS.slice, JS.rel_index.
  rewrite chars_of_chars, js_length_chars.
  destruct (Z.ltb_spec a 0) as [?|_]; [lia|].
  destruct (Z.ltb_spec b 0) as [?|_]; [lia|].
  set (l := JS.chars s).
  destruct (Z_le_gt_dec (Z.of_nat (length l)) a) as [Hge|Hlt].
  - rewrite !drop_ge by lia. now rewrite !take_nil.
  - rewrite (Z.min_l a) by lia.
    destruct (Z_le_gt_dec b (Z.of_nat (length l))) as [Hb'|Hb'].
    + rewrite (Z.min_l b) by lia. f_equal. lia.
    + rewrite (Z.min_r b) by lia.
      rewrite !take_ge; [reflexivity | rewrite length_drop; lia | rewrite length_drop; lia].
Qed.

Lemma chars_slice_from (s : string) (a : Z) :
  0 <= a -> JS.chars (JS.slice_from s a) = drop (Z.to_nat a) (JS.chars s).
Proof.
  intros Ha. unfold JS.slice_from.
  rewrite chars_slice by (try assumption; unfold JS.length; lia).
  apply take_ge. rewrite length_drop, js_length_chars. lia.
Qed.

(** ** C6: truncate *)

(** C6. For every string [s] and natural number [n], [truncate(s, n)]
    returns [s] unchanged when [s.length <= n], and otherwise the first [n]
    characters of [s] followed by the suffix (by default "..."); in
    particular [truncate("Hello World", 5)] is "Hello...". *)
Theorem truncate_spec (s : string) (n : nat) (suffix : string) :
  ((String.length s <= n)%nat ->
     Manipulation.truncate s (Z.of_nat n) suffix = s) /\
  ((n < String.length s)%nat ->
     Manipulation.truncate s (Z.of_nat n) suffix
       = JS.of_chars (take n (JS.chars s)) +:+ suffix /\
     String.length (JS.of_chars (take n (JS.chars s))) = n) /\
  Manipulation.truncate "Hello World" 5 Manipulation.default_suffix = "Hello...".
Proof.
  unfold Manipulation.truncate, JS.length. split; [|split].
  - intros H. destruct (Z.leb_spec (Z.of_nat (String.length s)) (Z.of_nat n)); [reflexivity | lia].
  - intros H. destruct (Z.leb_spec (Z.of_nat (String.length s)) (Z.of_nat n)); [lia|].
    split.
    + f_equal. apply chars_inj.
      rewrite chars_slice, chars_of_chars by lia.
      rewrite drop_0. f_equal. lia.
    + rewrite <- chars_length, chars_of_chars, length_take, chars_length. lia.
  - reflexivity.
Qed.

Lemma truncate_spec_witness :
  Manipulation.truncate "Hi" 5 "..." = "Hi" /\
  Manipulation.truncate "Hello World" 5 "..." = "Hello" +:+ "...".
Proof.
  split.
  - apply (proj1 (truncate_spec "Hi" 5 "...")). simpl. lia.
  - apply (proj1 (proj2 (truncate_spec "Hello World" 5 "..."))). simpl. lia.
Defined.

(** ** C4: formatPhoneNumber *)

Lemma chars_strip (s : string) :
  JS.chars (JS.strip_non_digits s) = List.filter JS.is_digit (JS.chars s).
Proof. apply chars_of_chars. Qed.

Lemma chars_formatPhoneNumber (x : string) :
  JS.chars (Formatter.formatPhoneNumber x)
  = phone_groups (List.filter JS.is_digit (JS.chars x)).
Proof.
  unfold Formatter.formatPhoneNumber, phone_groups.
  set (c := JS.strip_non_digits x).
  rewrite <- chars_strip. fold c.
  rewrite js_length_chars.
  destruct (Z.leb_spec (Z.of_nat (length (JS.chars c))) 3);
    [rewrite (proj2 (Nat.leb_le _ _)) by lia; reflexivity
    |rewrite (proj2 (Nat.leb_gt _ _)) by lia].
  destruct (Z.leb_spec (Z.of_nat (length (JS.chars c))) 7);
    [rewrite (proj2 (Nat.leb_le _ _)) by lia
    |rewrite (proj2 (Nat.leb_gt _ _)) by lia].
  { rewrite !chars_app, chars_slice, chars_slice_from by lia. now rewrite drop_0. }
  destruct (Z.leb_spec (Z.of_nat (length (JS.chars c))) 11);
    [rewrite (proj2 (Nat.leb_le _ _)) by lia
    |rewrite (proj2 (Nat.leb_gt _ _)) by lia].
  - rewrite !chars_app, !chars_slice, chars_slice_from by lia. now rewrite drop_0.
  - rewrite !chars_app, !chars_slice by lia. now rewrite drop_0.
Qed.

Lemma filter_digits_all (d : list ascii) :
  Forall (fun c => JS.is_digit c = true) d -> List.filter JS.is_digit d = d.
Proof.
  induction 1 as [|c d Hc _ IH]; simpl; [reflexivity|]. now rewrite Hc, IH.
Qed.

Lemma filter_digits_Forall (l : list ascii) :
  Forall (fun c => JS.is_digit c = true) (List.filter JS.is_digit l).
Proof.
  induction l as [|c l IH]; simpl; [constructor|].
  destruct (JS.is_digit c) eqn:E; [constructor; assumption | assumption].
Qed.

Lemma Forall_digit_take (n : nat) (d : list ascii) :
  Forall (fun c => JS.is_digit c = true) d ->
  Forall (fun c => JS.is_digit c = true) (take n d).
Proof. apply Forall_take. Qed.

Lemma Forall_digit_drop (n : nat) (d : list ascii) :
  Forall (fun c => JS.is_digit c = true) d ->
  Forall (fun c => JS.is_digit c = true) (drop n d).
Proof. apply Forall_drop. Qed.

(** Cleaning a formatted number gives back its first eleven digits. *)
Lemma clean_phone_groups (d : list ascii) :
  Forall (fun c => JS.is_digit c = true) d ->
  List.filter JS.is_digit (phone_groups d) = take 11 d.
Proof.
  intros Hd. unfold phone_groups.
  assert (Hf : forall n, List.filter JS.is_digit (take n d) = take n d)
    by (intros; apply filter_digits_all, Forall_digit_take, Hd).
  assert (Hg : forall n, List.filter JS.is_digit (drop n d) = drop n d)
    by (intros; apply filter_digits_all, Forall_digit_drop, Hd).
  assert (Hh : forall n m, List.filter JS.is_digit (take n (drop m d)) = take n (drop m d))
    by (intros; apply filter_digits_all, Forall_digit_take, Forall_digit_drop, Hd).
  destruct (Nat.leb_spec (length d) 3).
  { rewrite filter_digits_all by assumption. symmetry. apply take_ge. lia. }
  destruct (Nat.leb_spec (length d) 7).
  { rewrite !List.filter_app, Hf, Hg. simpl. rewrite take_drop.
    symmetry. apply take_ge. lia. }
  destruct (Nat.leb_spec (length d) 11).
  { rewrite !List.filter_app, Hf, Hg, Hh. simpl.
    rewrite (take_ge d 11) by lia.
    change (drop 7 d) with (drop (3 + 4) d).
    rewrite <- (drop_drop d 4 3). now rewrite !take_drop. }
  rewrite !List.filter_app, Hf, !Hh. simpl.
  change (drop 7 d) with (drop (3 + 4) d).
  rewrite <- (drop_drop d 4 3).
  rewrite (take_take_drop (drop 3 d) 4 4).
  now rewrite (take_take_drop d 3 (4 + 4)).
Qed.

(** Formatting depends on the first eleven digits only. *)
Lemma phone_groups_take (d : list ascii) :
  phone_groups (take 11 d) = phone_groups d.
Proof.
  destruct (Nat.leb_spec (length d) 11) as [H|H].
  { now rewrite take_ge by lia. }
  unfold phone_groups. rewrite length_take, Nat.min_l by lia. simpl.
  rewrite !(proj2 (Nat.leb_gt _ _)) by lia.
  assert (E1 : take 3 (take 11 d) = take 3 d) by now rewrite take_take.
  assert (E2 : drop 3 (take 11 d) = take 8 (drop 3 d))
    by (symmetry; apply (take_drop_commute d 8 3)).
  assert (E3 : drop 7 (take 11 d) = take 4 (drop 7 d))
    by (symmetry; apply (take_drop_commute d 4 7)).
  rewrite E1, E2, E3. now rewrite take_take.
Qed.

(** C4. [formatPhoneNumber("01012345678")] is "010-1234-5678", and
    formatting is idempotent: for every input string [x],
    [formatPhoneNumber(formatPhoneNumber(x))] equals
    [formatPhoneNumber(x)]. *)
Theorem formatPhoneNumber_idempotent :
  Formatter.formatPhoneNumber "01012345678" = "010-1234-5678" /\
  forall x : string,
    Formatter.formatPhoneNumber (Formatter.formatPhoneNumber x)
    = Formatter.formatPhoneNumber x.
Proof.
  split; [reflexivity|].
  intros x. apply chars_inj.
  rewrite (chars_formatPhoneNumber (Formatter.formatPhoneNumber x)).
  rewrite !chars_formatPhoneNumber.
  rewrite clean_phone_groups by apply filter_digits_Forall.
  apply phone_groups_take.
Qed.

(** ** C5, C9: the discount computations *)

(** C5. [calculateDiscountedPrice(10000, calculateDiscount(10000, 8000))]
    equals 8000: on this input the discount rate is 20 and applying it to
    the original price gives back the discounted price, exactly. *)
Theorem discount_roundtrip_10000_8000 :
  NumberFormat.calculateDiscount 10000 8000 = 20%float /\
  NumberFormat.calculateDiscountedPrice 10000
    (NumberFormat.calculateDiscount 10000 8000) = 8000%float.
Proof. split; vm_compute; reflexivity. Qed.

Section Comparisons.

Local Open Scope float_scope.

Lemma Prim2SF_zero : Prim2SF 0 = S754_zero false.
Proof. reflexivity. Qed.

(** What the guard [originalPrice <= 0] leaves through: a number that is not
    a zero, and that is either above zero or NaN. *)
Lemma not_leb_zero (x : float) :
  (x <=? 0) = false ->
  (x =? 0) = false /\ ((0 <? x) = true \/ is_nan x = true).
Proof.
  unfold is_nan.
  rewrite FloatAxioms.leb_spec, FloatAxioms.ltb_spec, !FloatAxioms.eqb_spec, Prim2SF_zero.
  unfold SFleb, SFltb, SFeqb.
  destruct (Prim2SF x) as [s|s| |s m e]; simpl.
  - discriminate.
  - destruct s; [discriminate | auto].
  - auto.
  - destruct s; [discriminate | auto].
Qed.

End Comparisons.

(** C9, as stated, fails on NaN: the guard [NaN <= 0] is false, so the
    division by [originalPrice] is executed although [originalPrice] is not
    strictly positive. *)
Lemma calculateDiscount_divides_by_nan :
  In nan (NumberFormat.divisors (NumberFormat.calculateDiscount_run nan 8000)) /\
  (0 <? nan)%float = false.
Proof. split; [left; reflexivity | reflexivity]. Qed.

(** C9 (amended). For every pair of numbers, [calculateDiscount] returns 0
    whenever [originalPrice <= 0], without dividing; the division by
    [originalPrice] is executed only when [originalPrice] is strictly
    positive or NaN; and no division it executes has a zero divisor. *)
Theorem calculateDiscount_guard (originalPrice discountedPrice : float) :
  ((originalPrice <=? 0)%float = true ->
     NumberFormat.calculateDiscount originalPrice discountedPrice = 0%float /\
     NumberFormat.divisors
       (NumberFormat.calculateDiscount_run originalPrice discountedPrice) = []) /\
  (In originalPrice
      (NumberFormat.divisors
         (NumberFormat.calculateDiscount_run originalPrice discountedPrice)) ->
     (0 <? originalPrice)%float = true \/ is_nan originalPrice = true) /\
  (forall v,
     In v (NumberFormat.divisors
             (NumberFormat.calculateDiscount_run originalPrice discountedPrice)) ->
     (v =? 0)%float = false).
Proof.
  unfold NumberFormat.calculateDiscount, NumberFormat.calculateDiscount_run.
  destruct (originalPrice <=? 0)%float eqn:G; simpl.
  - split; [auto|]. split; intros; contradiction.
  - destruct (not_leb_zero _ G) as [Hz Hpos].
    split; [discriminate|]. split; [auto|].
    intros v [<-|[<-|[]]]; [assumption | reflexivity].
Qed.

Lemma calculateDiscount_guard_witness :
  ((0 <? 10000)%float = true \/ is_nan 10000 = true) /\
  NumberFormat.calculateDiscount (-5) 8000 = 0%float.
Proof.
  split.
  - apply (proj1 (proj2 (calculateDiscount_guard 10000 8000))).
    left. reflexivity.
  - apply (proj1 (calculateDiscount_guard (-5) 8000)). reflexivity.
Defined.

(** ** C3, C10: the API log store *)

Section LogStore.

Import ApiLogger.

Lemma take_100_cons (e : ApiLogEntry) (l : list ApiLogEntry) :
  take 100 (e :: l) = e :: take 99 l.
Proof. reflexivity. Qed.

Lemma notify_listeners (ls : list listener) (logs : list ApiLogEntry) :
  map to_listener (notify ls logs) = ls /\
  Forall (fun d => delivered d = logs) (notify ls logs).
Proof.
  unfold notify. split.
  - rewrite List.map_map. simpl. apply List.map_id.
  - apply Forall_forall. intros d Hd.
    apply list_elem_of_In, List.in_map_iff in Hd. destruct Hd as [l [<- _]].
    reflexivity.
Qed.

Lemma step_bounded (st : Store) (c : call) :
  (length (globalLogs st) <= 100)%nat ->
  (length (globalLogs (fst (step st c))) <= 100)%nat.
Proof.
  intros H. destruct c; simpl; try assumption; try lia.
  rewrite length_take. lia.
Qed.

Lemma run_bounded (cs : list call) (st : Store) :
  (length (globalLogs st) <= 100)%nat ->
  (length (globalLogs (run cs st)) <= 100)%nat.
Proof.
  revert st. induction cs as [|c cs IH]; intros st H; simpl; [assumption|].
  apply IH, step_bounded, H.
Qed.

(** The store holds the hundred newest of the entries added since it was
    last cleared. *)
Lemma run_added (cs : list call) (st : Store) (acc : list ApiLogEntry) :
  globalLogs st = take 100 acc ->
  globalLogs (run cs st) = take 100 (added_since_clear cs acc).
Proof.
  revert st acc. induction cs as [|c cs IH]; intros st acc H; simpl; [assumption|].
  destruct c; simpl; apply IH; simpl.
  - rewrite H. f_equal. rewrite take_take. reflexivity.
  - reflexivity.
  - assumption.
  - assumption.
Qed.

End LogStore.

(** C3. After any sequence of calls on the log store the global log list
    holds at most 100 entries; [addApiLog] adds exactly one new entry, at
    the head of the list cut to 100; [clearApiLogs] leaves the list empty;
    and each of the two calls every registered listener, once and in
    registration order, with the resulting list. *)
Theorem log_store_bounded (cs : list ApiLogger.call) (st : ApiLogger.Store)
    (log : ApiLogger.ApiLogInput) (t : ApiLogger.Tick) :
  (length (ApiLogger.globalLogs (ApiLogger.run cs ApiLogger.initial)) <= 100)%nat /\
  (let (st', ds) := ApiLogger.addApiLog log t st in
   ApiLogger.globalLogs st'
     = ApiLogger.newLog log t :: take 99 (ApiLogger.globalLogs st) /\
   length (ApiLogger.globalLogs st')
     = Nat.min 100 (S (length (ApiLogger.globalLogs st))) /\
   ApiLogger.logListeners st' = ApiLogger.logListeners st /\
   map ApiLogger.to_listener ds = ApiLogger.logListeners st /\
   Forall (fun d => ApiLogger.delivered d = ApiLogger.globalLogs st') ds) /\
  (let (st', ds) := ApiLogger.clearApiLogs st in
   ApiLogger.globalLogs st' = [] /\
   ApiLogger.logListeners st' = ApiLogger.logListeners st /\
   map ApiLogger.to_listener ds = ApiLogger.logListeners st /\
   Forall (fun d => ApiLogger.delivered d = []) ds).
Proof.
  split; [|split].
  - apply run_bounded. simpl. lia.
  - simpl. split; [reflexivity|]. split.
    { rewrite length_take. simpl. lia. }
    split; [reflexivity|]. apply notify_listeners.
  - simpl. split; [reflexivity|]. split; [reflexivity|]. apply notify_listeners.
Qed.

(** C10. [addApiLog] places the new entry at the front of the log list and
    keeps the prior entries in their order; when the list already holds 100
    entries exactly the last one, the oldest, is dropped, and below 100
    none is; so after any sequence of calls the store holds the 100 most
    recently added entries (since it was last cleared), newest first. *)
Theorem addApiLog_newest_first (cs : list ApiLogger.call) (st : ApiLogger.Store)
    (log : ApiLogger.ApiLogInput) (t : ApiLogger.Tick) :
  ((length (ApiLogger.globalLogs st) < 100)%nat ->
     ApiLogger.globalLogs (fst (ApiLogger.addApiLog log t st))
       = ApiLogger.newLog log t :: ApiLogger.globalLogs st) /\
  (length (ApiLogger.globalLogs st) = 100%nat ->
     ApiLogger.globalLogs (fst (ApiLogger.addApiLog log t st))
       = ApiLogger.newLog log t :: removelast (ApiLogger.globalLogs st)) /\
  ApiLogger.globalLogs (ApiLogger.run cs ApiLogger.initial)
    = take 100 (ApiLogger.added_since_clear cs []).
Proof.
  split; [|split].
  - intros H. simpl. f_equal. apply take_ge. lia.
  - intros H. simpl. f_equal.
    rewrite removelast_firstn_len, H. reflexivity.
  - apply run_added. reflexivity.
Qed.

Lemma addApiLog_newest_first_witness :
  ApiLogger.globalLogs
    (fst (ApiLogger.addApiLog Samples.log_input (Samples.tick 500) (Samples.store_with 100)))
  = ApiLogger.newLog Samples.log_input (Samples.tick 500)
      :: removelast (ApiLogger.globalLogs (Samples.store_with 100)) /\
  ApiLogger.globalLogs
    (fst (ApiLogger.addApiLog Samples.log_input (Samples.tick 500) (Samples.store_with 3)))
  = ApiLogger.newLog Samples.log_input (Samples.tick 500)
      :: ApiLogger.globalLogs (Samples.store_with 3).
Proof.
  split.
  - apply (proj1 (proj2 (addApiLog_newest_first [] (Samples.store_with 100)
                           Samples.log_input (Samples.tick 500)))).
    reflexivity.
  - apply (proj1 (addApiLog_newest_first [] (Samples.store_with 3)
                    Samples.log_input (Samples.tick 500))).
    simpl. lia.
Defined.

(** ** C7: the clipboard hook *)

Section ClipboardProps.

Import Clipboard.


End ClipboardProps.


(** ** C8: the storage-sync hook *)

Section StorageProps.

Import LocalStorage.

Variable T : Type.
Variable JSON_parse : string -> Eff.result T.

(** C8. For every key and initial value, reading the stored value never
    propagates an exception: it always returns a value; and if the code
    runs outside a browser, or the storage read throws, or the key is
    absent, or parsing the stored text throws, the value returned is the
    initial value supplied by the caller. *)
Theorem readValue_falls_back (env : Env) (key : string) (initialValue : T)
    (console : Console) :
  exists (v : T) (console' : Console),
    readValue T JSON_parse env key initialValue console = (Eff.Ok v, console') /\
    (isBrowser env = false -> v = initialValue) /\
    (forall e, getItem env key = Eff.Throw e -> v = initialValue) /\
    (getItem env key = Eff.Ok None -> v = initialValue) /\
    (forall text e,
       getItem env key = Eff.Ok (Some text) ->
       JSON_parse text = Eff.Throw e -> v = initialValue).
Proof.
  unfold readValue. destruct (isBrowser env) eqn:Hb; simpl.
  2:{ exists initialValue, console. repeat split; reflexivity. }
  unfold Eff.try_catch, Eff.bind, Eff.lift.
  destruct (getItem env key) as [item|e] eqn:Hg; simpl.
  2:{ eexists initialValue, _. repeat split; reflexivity. }
  destruct (truthy_item item) as [text|] eqn:Ht.
  - destruct (JSON_parse text) as [v|e] eqn:Hp; simpl.
    + exists v, console. split; [reflexivity|].
      split; [discriminate|]. split; [discriminate|].
      split.
      * intros [= ->]. discriminate.
      * intros text' e [= ->] Hp'.
        assert (text' = text) as ->
          by (destruct text' as [|? ?]; simpl in Ht; congruence).
        congruence.
    + eexists initialValue, _. repeat split; reflexivity.
  - exists initialValue, console. repeat split; reflexivity.
Qed.

End StorageProps.

Lemma readValue_falls_back_witness :
  exists (v : Z) (console' : LocalStorage.Console),
    LocalStorage.readValue Z Samples.parse_Z (Samples.storage [("count", "4x2")])
      "count" 5 [] = (Eff.Ok v, console') /\
    v = 5.
Proof.
  destruct (readValue_falls_back Z Samples.parse_Z
              (Samples.storage [("count", "4x2")]) "count" 5 [])
    as [v [c' [Hrun [_ [_ [_ Hparse]]]]]].
  exists v, c'. split; [exact Hrun|].
  apply (Hparse "4x2" "SyntaxError"); reflexivity.
Defined.

(** ** C1, C2: the changed-fields differ *)

Section Differ.

Import FormDevTools.

(** Induction on values, with the hypothesis on every element of an array
    and on every property of an object. *)
Lemma value_nested_ind (P : value -> Prop) :
  P VUndefined -> P VNull -> (forall b, P (VBool b)) -> (forall n, P (VNum n)) ->
  (forall s, P (VStr s)) ->
  (forall l, Forall P l -> P (VArr l)) ->
  (forall fs, Forall (fun kv => P (snd kv)) fs -> P (VObj fs)) ->
  forall v, P v.
Proof.
  intros HU HN HB HZ HS HA HO.
  fix IH 1.
  intros [| |b|n|s|items|fields];
    [exact HU | exact HN | apply HB | apply HZ | apply HS | | ].
  - apply HA.
    exact ((fix all (l : list value) : Forall P l :=
              match l with
              | [] => @List.Forall_nil _ P
              | x :: l' => @List.Forall_cons _ P x l' (IH x) (all l')
              end) items).
  - apply HO.
    exact ((fix all (l : list (string * value)) : Forall (fun kv => P (snd kv)) l :=
              match l with
              | [] => @List.Forall_nil _ _
              | kv :: l' => @List.Forall_cons _ (fun kv => P (snd kv)) kv l' (IH (snd kv)) (all l')
              end) fields).
Qed.

Lemma indexed_cons {A : Type} (from : nat) (x : A) (l : list A) :
  indexed from (x :: l) = (nat_to_string from, x) :: indexed (S from) l.
Proof.
  unfold indexed. simpl. rewrite Nat.add_0_r. f_equal.
  apply imap_ext. intros i y _. simpl. f_equal. f_equal. lia.
Qed.

Lemma indexed_snd {A : Type} (from : nat) (l : list A) :
  map snd (indexed from l) = l.
Proof.
  revert from. induction l as [|x l IH]; intros from; [reflexivity|].
  rewrite indexed_cons. simpl. now rewrite IH.
Qed.

Variables values originalValues : value.

Local Abbreviation process := (processDirtyFields values originalValues).
Local Abbreviation visit_key := (visit values originalValues).
Local Abbreviation agrees := (FormDevTools.agrees values originalValues).
Local Abbreviation extends := (FormDevTools.extends values originalValues).
Local Abbreviation traversal_ok := (FormDevTools.traversal_ok values originalValues).

(** The traversal of a node is the fold of the callback over its keys. *)
Lemma process_entries (dirty : value) (prefix : string)
    (changed : gmap string ChangedField) :
  process dirty prefix changed
  = fold_left (visit_key prefix) (own_entries dirty) changed.
Proof.
  destruct dirty as [| |b|n|s|items|fields]; try reflexivity.
  - (* a string: its keys are indices, its values one-character strings *)
    simpl. generalize 0%nat. generalize (JS.chars s). intros l.
    revert changed. induction l as [|c l IH]; intros changed from; [reflexivity|].
    simpl map. rewrite indexed_cons. simpl. apply IH.
  - simpl own_entries. simpl process. generalize 0%nat.
    revert changed. induction items as [|x l IH]; intros changed from; [reflexivity|].
    rewrite indexed_cons. simpl fold_left. rewrite <- IH.
    unfold visit. simpl. destruct x as [| |[|]|?|?|?|?]; reflexivity.
  - simpl own_entries. simpl process.
    revert changed. induction fields as [|[k x] l IH]; intros changed; [reflexivity|].
    simpl fold_left. rewrite <- IH.
    unfold visit. simpl. destruct x as [| |[|]|?|?|?|?]; reflexivity.
Qed.

Lemma reaches_entries (dirty : value) (prefix p : string) :
  reaches dirty prefix p
  <-> exists kv, In kv (own_entries dirty) /\ reaches_via prefix kv p.
Proof.
  unfold reaches, reaches_via. split.
  - intros [chain [Hleaf Hpath]]. inversion Hleaf as [d key Hin|d key sub rest Hin Hobj Hsub]; subst.
    + exists (key, VBool true). split; [assumption|]. left. split; reflexivity.
    + exists (key, sub). split; [assumption|]. right. split; [assumption|].
      exists rest. split; [assumption | reflexivity].
  - intros [[key dv] [Hin [[Hv Hp]|[Hobj [chain [Hleaf Hp]]]]]]; simpl in *.
    + subst dv. exists [key]. split; [now apply leaf_here | exact Hp].
    + exists (key :: chain). split; [now apply leaf_below with dv | exact Hp].
Qed.

(** A string carries no marker. *)
Lemma string_reaches_nothing (s prefix p : string) : ~ reaches (VStr s) prefix p.
Proof.
  rewrite reaches_entries. intros [kv [Hin Hvia]].
  assert (Hs : In (snd kv) (map snd (own_entries (VStr s))))
    by (apply List.in_map; exact Hin).
  simpl in Hs. rewrite indexed_snd in Hs.
  apply List.in_map_iff in Hs. destruct Hs as [c [Hc _]].
  destruct Hvia as [[Hv _]|[Hobj _]]; rewrite <- Hc in *; discriminate.
Qed.

Lemma extends_agrees changed' changed p R :
  agrees changed p -> extends changed' changed p R -> agrees changed' p.
Proof.
  intros Ha He e Hl. apply He in Hl. destruct Hl as [Hl|[_ [_ ->]]]; auto.
Qed.

Lemma extends_refl changed p (R : Prop) : ~ R -> extends changed changed p R.
Proof. intros HR e. split; [auto | intros [H|[H _]]; [assumption | contradiction]]. Qed.

Lemma record_leaf_lookup (fullPath p : string) (changed : gmap string ChangedField) :
  agrees changed p ->
  extends (record_leaf values originalValues fullPath changed) changed p (fullPath = p).
Proof.
  intros Ha e. unfold record_leaf. fold (differs_at values originalValues fullPath).
  fold (entry_at values originalValues fullPath).
  destruct (decide (fullPath = p)) as [->|Hne].
  - destruct (differs_at values originalValues p) eqn:Hd.
    + rewrite lookup_insert_eq. split.
      * intros [= <-]. right. auto.
      * intros [H|[_ [_ ->]]]; [apply Ha in H; now subst | reflexivity].
    + split; [auto | intros [H|[_ [H _]]]; [assumption | discriminate]].
  - assert (Hl : (if differs_at values originalValues fullPath
                  then <[fullPath := entry_at values originalValues fullPath]> changed
                  else changed) !! p = changed !! p).
    { destruct (differs_at values originalValues fullPath); [|reflexivity].
      now apply lookup_insert_ne. }
    rewrite Hl. split; [auto | intros [H|[H _]]; [assumption | contradiction]].
Qed.

Lemma visit_lookup (prefix p : string) (kv : string * value)
    (changed : gmap string ChangedField) :
  traversal_ok (snd kv) ->
  agrees changed p ->
  extends (visit_key prefix changed kv) changed p (reaches_via prefix kv p).
Proof.
  intros IH Ha. destruct kv as [key dv]. unfold visit, reaches_via. simpl in *.
  assert (Hleaf : forall b, dv = VBool b -> b = true ->
            extends (record_leaf values originalValues (fullPathOf prefix key) changed)
              changed p
              (dv = VBool true /\ fullPathOf prefix key = p
               \/ is_object dv = true /\ reaches dv (fullPathOf prefix key) p)).
  { intros b -> -> e. rewrite (record_leaf_lookup _ _ _ Ha e). simpl.
    split; (intros [H|[H Hr]]; [left; exact H | right; split; [|exact Hr]]).
    - left. auto.
    - destruct H as [[_ H]|[H _]]; [exact H | discriminate]. }
  assert (Hnode : is_object dv = true ->
            extends (process dv (fullPathOf prefix key) changed) changed p
              (dv = VBool true /\ fullPathOf prefix key = p
               \/ is_object dv = true /\ reaches dv (fullPathOf prefix key) p)).
  { intros Hobj e. rewrite (IH _ _ _ Ha e).
    split; (intros [H|[H Hr]]; [left; exact H | right; split; [|exact Hr]]).
    - right. auto.
    - destruct H as [[H _]|[_ H]]; [rewrite H in Hobj; discriminate | exact H]. }
  destruct dv as [| |[|]|n|s|items|fields];
    try (apply extends_refl; intros [[H _]|[H _]]; discriminate).
  - now apply (Hleaf true).
  - now apply Hnode.
  - now apply Hnode.
Qed.

Lemma fold_lookup (prefix p : string) (es : list (string * value)) :
  Forall (fun kv => traversal_ok (snd kv)) es ->
  forall changed,
    agrees changed p ->
    extends (fold_left (visit_key prefix) es changed) changed p
      (exists kv, In kv es /\ reaches_via prefix kv p).
Proof.
  induction 1 as [|kv es Hkv _ IH]; intros changed Ha.
  - apply extends_refl. intros [kv [[] _]].
  - simpl fold_left.
    pose proof (visit_lookup prefix p kv changed Hkv Ha) as Hv.
    pose proof (IH _ (extends_agrees _ _ _ _ Ha Hv)) as Hf.
    intros e. rewrite (Hf e), (Hv e). split.
    + intros [[H|[Hr Hd]]|[[kv' [Hin Hr]] Hd]].
      * left. exact H.
      * right. split; [exists kv; split; [left; reflexivity | exact Hr] | exact Hd].
      * right. split; [exists kv'; split; [right; exact Hin | exact Hr] | exact Hd].
    + intros [H|[[kv' [[<-|Hin] Hr]] Hd]].
      * left. left. exact H.
      * left. right. split; assumption.
      * right. split; [exists kv'; split; assumption | exact Hd].
Qed.

Lemma process_lookup (dirty : value) : traversal_ok dirty.
Proof.
  induction dirty as [| |b|n|s|items IH|fields IH] using value_nested_ind;
    intros prefix changed p Ha e;
    rewrite process_entries, reaches_entries;
    apply fold_lookup; try assumption; try constructor.
  - (* a string *)
    simpl. apply Forall_forall. intros kv Hin.
    assert (Hs : In (snd kv) (map snd (indexed 0
                   (map (fun c => VStr (String c EmptyString)) (JS.chars s)))))
      by (apply List.in_map, list_elem_of_In; exact Hin).
    rewrite indexed_snd in Hs. apply List.in_map_iff in Hs. destruct Hs as [c [<- _]].
    intros prefix' changed' p' _. simpl.
    apply extends_refl. apply string_reaches_nothing.
  - (* an array *)
    simpl. apply Forall_forall. intros kv Hin.
    assert (Hs : In (snd kv) (map snd (indexed 0 items)))
      by (apply List.in_map, list_elem_of_In; exact Hin).
    rewrite indexed_snd in Hs.
    rewrite Forall_forall in IH. apply IH, list_elem_of_In, Hs.
Qed.

End Differ.

Section DifferResult.

Import FormDevTools.


Lemma JSON_stringify_None (v : value) : JSON_stringify v = None <-> v = VUndefined.
Proof.
  destruct v as [| |[|]|n|s|items|fields]; simpl; split; try discriminate; reflexivity.
Qed.

(** The mapping [getChangedFields] returns, when both the markers and the
    current values are supplied. *)
Lemma getChangedFields_lookup (dirty values originalValues : value) (p : string)
    (e : ChangedField) :
  truthy dirty = true -> truthy values = true ->
  getChangedFields dirty values originalValues !! p = Some e
  <-> reaches dirty "" p
      /\ differs_at values originalValues p = true
      /\ e = entry_at values originalValues p.
Proof.
  intros Hd Hv. unfold getChangedFields. rewrite Hd, Hv. simpl.
  assert (Ha : forall e', (∅ : gmap string ChangedField) !! p = Some e' ->
                 e' = entry_at values originalValues p)
    by (intros e'; rewrite lookup_empty; discriminate).
  rewrite (process_lookup values originalValues dirty "" ∅ p Ha e).
  rewrite lookup_empty. split; [intros [H|H]; [discriminate | exact H] | auto].
Qed.

(** *** Paths *)







End DifferResult.





Section WithoutOriginal.

Import FormDevTools.

Lemma resolve_keys_undefined (keys : list string) :
  fold_left get_prop keys VUndefined = VUndefined.
Proof. induction keys as [|k keys IH]; [reflexivity | exact IH]. Qed.


End WithoutOriginal.


(** ** The definitions on concrete inputs *)

Example Math_round_half_up : NumberFormat.Math_round 2.5%float = 3%float.
Proof. reflexivity. Qed.

Example Math_round_negative_half : NumberFormat.Math_round (-2.5)%float = (-2)%float.
Proof. reflexivity. Qed.

Example Math_round_below_half :
  NumberFormat.Math_round 0.49999999999999994%float = 0%float.
Proof. reflexivity. Qed.

Example Math_round_negative_zero : NumberFormat.Math_round (-0.2)%float = neg_zero.
Proof. reflexivity. Qed.

Example calculateDiscount_documented :
  NumberFormat.calculateDiscount 100 75 = 25%float /\
  NumberFormat.calculateDiscountedPrice 100 25 = 75%float.
Proof. split; reflexivity. Qed.

Example formatPhoneNumber_tests :
  Formatter.formatPhoneNumber "0212345678" = "021-2345-678" /\
  Formatter.formatPhoneNumber "010" = "010" /\
  Formatter.formatPhoneNumber "0101234" = "010-1234" /\
  Formatter.formatPhoneNumber "010-1234-5678" = "010-1234-5678" /\
  Formatter.formatPhoneNumber "010123456789999" = "010-1234-5678".
Proof. repeat split; reflexivity. Qed.

Example getNestedValue_through_array :
  FormDevTools.getNestedValue
    (FormDevTools.VObj [("a", FormDevTools.VArr [FormDevTools.VNum 5; FormDevTools.VStr "hey"])])
    "a.1.length" = FormDevTools.VNum 3.
Proof. reflexivity. Qed.

Example JSON_stringify_object :
  FormDevTools.JSON_stringify
    (FormDevTools.VObj [("a", FormDevTools.VArr [FormDevTools.VNum (-3); FormDevTools.VUndefined]);
                        ("u", FormDevTools.VUndefined);
                        ("b", FormDevTools.VBool true)])
  = Some ("{" +:+ JS.dquote +:+ "a" +:+ JS.dquote +:+ ":[-3,null]," +:+ JS.dquote
            +:+ "b" +:+ JS.dquote +:+ ":true}").
Proof. reflexivity. Qed.

Example getChangedFields_field_array :
  dom (FormDevTools.getChangedFields
         (FormDevTools.VObj [("items", FormDevTools.VArr
            [FormDevTools.VObj [("name", FormDevTools.VBool true)];
             FormDevTools.VNull;
             FormDevTools.VObj [("name", FormDevTools.VBool true)]])])
         (FormDevTools.VObj [("items", FormDevTools.VArr
            [FormDevTools.VObj [("name", FormDevTools.VStr "x")];
             FormDevTools.VObj [];
             FormDevTools.VObj [("name", FormDevTools.VStr "y")]])])
         (FormDevTools.VObj [("items", FormDevTools.VArr
            [FormDevTools.VObj [("name", FormDevTools.VStr "x")]])]))
  = ({[ "items.2.name" ]} : gset string).
Proof. vm_compute. reflexivity. Qed.

Example copy_succeeds :
  Clipboard.copy (Clipboard.NavObject (Some Samples.clipboard_ok)) "text"
    Samples.clipboard_state
  = (Eff.Ok true, {| Clipboard.copiedText := Some "text"; Clipboard.console := [] |}).
Proof. reflexivity. Qed.

Example copy_without_clipboard :
  Clipboard.copy (Clipboard.NavObject None) "text" Samples.clipboard_state
  = (Eff.Ok false,
     {| Clipboard.copiedText := Some "old";
        Clipboard.console := ["Clipboard API not supported"] |}).
Proof. reflexivity. Qed.

Example readValue_stored :
  LocalStorage.readValue Z Samples.parse_Z (Samples.storage [("count", "42")])
    "count" 5 [] = (Eff.Ok 42, []).
Proof. reflexivity. Qed.

Example readValue_server_side :
  LocalStorage.readValue Z Samples.parse_Z Samples.server_side "count" 5 []
  = (Eff.Ok 5, []).
Proof. reflexivity. Qed.

Example readValue_storage_denied :
  fst (LocalStorage.readValue Z Samples.parse_Z Samples.storage_denied "count" 5 [])
  = Eff.Ok 5.
Proof. reflexivity. Qed.

(** * Further properties of the code around the claims *)

(** ** src/form/formatter.ts *)

Section FormatterProps.

Import Formatters.

Lemma chars_extractNumbers (x : string) :
  JS.chars (extractNumbers x) = List.filter JS.is_digit (JS.chars x).
Proof. apply chars_of_chars. Qed.

Lemma length_phone_groups (d : list ascii) : (length (phone_groups d) <= 13)%nat.
Proof.
  unfold phone_groups.
  destruct (Nat.leb_spec (length d) 3); [lia|].
  destruct (Nat.leb_spec (length d) 7);
    [rewrite !length_app, length_take, length_drop;
     change (length (JS.chars "-")) with 1%nat; lia|].
  destruct (Nat.leb_spec (length d) 11);
    rewrite !length_app, !length_take, !length_drop;
    change (length (JS.chars "-")) with 1%nat; lia.
Qed.

(** Formatting a phone number keeps the digits of the input, in order, up to
    the eleventh, and drops the others; the result is at most 13 characters
    long. *)
Theorem formatPhoneNumber_keeps_digits (x : string) :
  extractNumbers (Formatter.formatPhoneNumber x) = JS.slice (extractNumbers x) 0 11 /\
  (String.length (Formatter.formatPhoneNumber x) <= 13)%nat.
Proof.
  split.
  - apply chars_inj.
    rewrite chars_extractNumbers, chars_formatPhoneNumber, chars_slice by lia.
    rewrite clean_phone_groups by apply filter_digits_Forall.
    rewrite chars_extractNumbers, drop_0. reflexivity.
  - rewrite <- chars_length, chars_formatPhoneNumber. apply length_phone_groups.
Qed.

Lemma chars_formatBusinessNumber (x : string) :
  JS.chars (formatBusinessNumber x)
  = business_groups (List.filter JS.is_digit (JS.chars x)).
Proof.
  unfold formatBusinessNumber, business_groups.
  set (c := JS.strip_non_digits x).
  rewrite <- chars_strip. fold c.
  rewrite js_length_chars.
  destruct (Z.leb_spec (Z.of_nat (length (JS.chars c))) 3);
    [rewrite (proj2 (Nat.leb_le _ _)) by lia; reflexivity
    |rewrite (proj2 (Nat.leb_gt _ _)) by lia].
  destruct (Z.leb_spec (Z.of_nat (length (JS.chars c))) 5);
    [rewrite (proj2 (Nat.leb_le _ _)) by lia
    |rewrite (proj2 (Nat.leb_gt _ _)) by lia].
  { rewrite !chars_app, chars_slice, chars_slice_from by lia. now rewrite drop_0. }
  destruct (Z.leb_spec (Z.of_nat (length (JS.chars c))) 10);
    [rewrite (proj2 (Nat.leb_le _ _)) by lia
    |rewrite (proj2 (Nat.leb_gt _ _)) by lia].
  - rewrite !chars_app, !chars_slice, chars_slice_from by lia. now rewrite drop_0.
  - rewrite !chars_app, !chars_slice by lia. now rewrite drop_0.
Qed.

Lemma clean_business_groups (d : list ascii) :
  Forall (fun c => JS.is_digit c = true) d ->
  List.filter JS.is_digit (business_groups d) = take 10 d.
Proof.
  intros Hd. unfold business_groups.
  assert (Hf : forall n, List.filter JS.is_digit (take n d) = take n d)
    by (intros; apply filter_digits_all, Forall_digit_take, Hd).
  assert (Hg : forall n, List.filter JS.is_digit (drop n d) = drop n d)
    by (intros; apply filter_digits_all, Forall_digit_drop, Hd).
  assert (Hh : forall n m, List.filter JS.is_digit (take n (drop m d)) = take n (drop m d))
    by (intros; apply filter_digits_all, Forall_digit_take, Forall_digit_drop, Hd).
  destruct (Nat.leb_spec (length d) 3).
  { rewrite filter_digits_all by assumption. symmetry. apply take_ge. lia. }
  destruct (Nat.leb_spec (length d) 5).
  { rewrite !List.filter_app, Hf, Hg. simpl. rewrite take_drop.
    symmetry. apply take_ge. lia. }
  destruct (Nat.leb_spec (length d) 10).
  { rewrite !List.filter_app, Hf, Hg, Hh. simpl.
    rewrite (take_ge d 10) by lia.
    change (drop 5 d) with (drop (3 + 2) d).
    rewrite <- (drop_drop d 2 3). now rewrite !take_drop. }
  rewrite !List.filter_app, Hf, !Hh. simpl.
  change (drop 5 d) with (drop (3 + 2) d).
  rewrite <- (drop_drop d 2 3).
  rewrite (take_take_drop (drop 3 d) 2 5).
  now rewrite (take_take_drop d 3 (2 + 5)).
Qed.

Lemma business_groups_take (d : list ascii) :
  business_groups (take 10 d) = business_groups d.
Proof.
  destruct (Nat.leb_spec (length d) 10) as [H|H].
  { now rewrite take_ge by lia. }
  unfold business_groups. rewrite length_take, Nat.min_l by lia. simpl.
  rewrite !(proj2 (Nat.leb_gt _ _)) by lia.
  assert (E1 : take 3 (take 10 d) = take 3 d) by now rewrite take_take.
  assert (E2 : drop 3 (take 10 d) = take 7 (drop 3 d))
    by (symmetry; apply (take_drop_commute d 7 3)).
  assert (E3 : drop 5 (take 10 d) = take 5 (drop 5 d))
    by (symmetry; apply (take_drop_commute d 5 5)).
  rewrite E1, E2, E3. now rewrite take_take.
Qed.

(** Formatting a business registration number keeps the digits of the input
    up to the tenth and drops the others, and formatting a formatted number
    changes nothing. *)
Theorem formatBusinessNumber_keeps_digits (x : string) :
  extractNumbers (formatBusinessNumber x) = JS.slice (extractNumbers x) 0 10 /\
  formatBusinessNumber (formatBusinessNumber x) = formatBusinessNumber x.
Proof.
  split; apply chars_inj.
  - rewrite chars_extractNumbers, chars_formatBusinessNumber, chars_slice by lia.
    rewrite clean_business_groups by apply filter_digits_Forall.
    rewrite chars_extractNumbers, drop_0. reflexivity.
  - rewrite (chars_formatBusinessNumber (formatBusinessNumber x)).
    rewrite !chars_formatBusinessNumber.
    rewrite clean_business_groups by apply filter_digits_Forall.
    apply business_groups_take.
Qed.

End FormatterProps.

Section CardProps.

Import Formatters.


Lemma chars_concat_cons (sep g h : string) (gs : list string) :
  JS.chars (String.concat sep (g :: h :: gs))
  = JS.chars g ++ JS.chars sep ++ JS.chars (String.concat sep (h :: gs)).
Proof.
  change (String.concat sep (g :: h :: gs))
    with (g +:+ sep +:+ String.concat sep (h :: gs)).
  now rewrite !chars_app.
Qed.




(** [maskResidentNumber] hides everything after the sixth digit: two inputs
    with at least six digits and the same first six digits give the same
    result, of 14 characters; an input with fewer than six digits comes
    back as its bare digits, unmasked. *)
Theorem maskResidentNumber_hides_tail (x y : string) :
  ((String.length (extractNumbers x) < 6)%nat ->
     maskResidentNumber x = extractNumbers x) /\
  ((6 <= String.length (extractNumbers x))%nat ->
     String.length (maskResidentNumber x) = 14%nat /\
     ((6 <= String.length (extractNumbers y))%nat ->
      JS.slice (extractNumbers x) 0 6 = JS.slice (extractNumbers y) 0 6 ->
      maskResidentNumber x = maskResidentNumber y)).
Proof.
  unfold maskResidentNumber, extractNumbers. split.
  - intros H. unfold JS.length.
    destruct (Z.ltb_spec (Z.of_nat (String.length (JS.strip_non_digits x))) 6);
      [reflexivity | lia].
  - intros H. unfold JS.length.
    destruct (Z.ltb_spec (Z.of_nat (String.length (JS.strip_non_digits x))) 6); [lia|].
    split.
    + rewrite <- chars_length, !chars_app, chars_slice by lia.
      rewrite !length_app, length_take, length_drop, chars_length.
      change (length (JS.chars "-")) with 1%nat.
      change (length (JS.chars seven_stars)) with 7%nat. lia.
    + intros Hy Heq.
      destruct (Z.ltb_spec (Z.of_nat (String.length (JS.strip_non_digits y))) 6); [lia|].
      now rewrite Heq.
Qed.

Lemma maskResidentNumber_hides_tail_witness :
  maskResidentNumber "900101-1234567" = maskResidentNumber "900101-7654321" /\
  maskResidentNumber "9001" = "9001".
Proof.
  split.
  - apply (proj2 (maskResidentNumber_hides_tail "900101-1234567" "900101-7654321"));
      [simpl; lia | simpl; lia | reflexivity].
  - apply (proj1 (maskResidentNumber_hides_tail "9001" "")). simpl. lia.
Defined.

(** [maskCreditCard] shows the first four and the last four digits only: two
    inputs with at least twelve digits that agree on those give the same
    result, of 19 characters; an input with fewer than twelve digits is
    returned as it was typed, unmasked. *)
Theorem maskCreditCard_shows_ends (x y : string) :
  ((String.length (extractNumbers x) < 12)%nat -> maskCreditCard x = x) /\
  ((12 <= String.length (extractNumbers x))%nat ->
     String.length (maskCreditCard x) = 19%nat /\
     ((12 <= String.length (extractNumbers y))%nat ->
      JS.slice (extractNumbers x) 0 4 = JS.slice (extractNumbers y) 0 4 ->
      JS.slice_from (extractNumbers x) (-4) = JS.slice_from (extractNumbers y) (-4) ->
      maskCreditCard x = maskCreditCard y)).
Proof.
  unfold maskCreditCard, extractNumbers. split.
  - intros H. unfold JS.length.
    destruct (Z.ltb_spec (Z.of_nat (String.length (JS.strip_non_digits x))) 12);
      [reflexivity | lia].
  - intros H. unfold JS.length.
    destruct (Z.ltb_spec (Z.of_nat (String.length (JS.strip_non_digits x))) 12); [lia|].
    split.
    + rewrite <- chars_length, !chars_app, chars_slice by lia.
      unfold JS.slice_from, JS.slice, JS.rel_index. rewrite chars_of_chars.
      rewrite !length_app, !length_take, !length_drop, chars_length.
      unfold JS.length.
      change (length (JS.chars "-****-****-")) with 11%nat.
      change (-4 <? 0) with true. cbv iota.
      destruct (Z.ltb_spec (Z.of_nat (String.length (JS.strip_non_digits x))) 0); [lia|].
      lia.
    + intros Hy Hhead Htail.
      destruct (Z.ltb_spec (Z.of_nat (String.length (JS.strip_non_digits y))) 12); [lia|].
      now rewrite Hhead, Htail.
Qed.

Lemma maskCreditCard_shows_ends_witness :
  maskCreditCard "1234-5678-9012-3456" = maskCreditCard "1234 0000 0000 3456" /\
  maskCreditCard "1234-5678" = "1234-5678".
Proof.
  split.
  - apply (proj2 (maskCreditCard_shows_ends "1234-5678-9012-3456" "1234 0000 0000 3456"));
      [simpl; lia | simpl; lia | reflexivity | reflexivity].
  - apply (proj1 (maskCreditCard_shows_ends "1234-5678" "")). simpl. lia.
Defined.

End CardProps.

(** ** src/string/manipulation.ts *)

Section RunsAndEnds.

Import Strings.

Variable p : ascii -> bool.

Lemma forallb_true_Forall (f : ascii -> bool) (l : list ascii) :
  forallb f l = true <-> Forall (fun c => f c = true) l.
Proof.
  induction l as [|c l IH]; simpl.
  - split; [constructor | reflexivity].
  - rewrite andb_true_iff, IH. split.
    + intros [Hc Hl]. now constructor.
    + intros H. inversion H; subst. now split.
Qed.

Lemma drop_while_suffix (l : list ascii) : exists a, l = a ++ drop_while p l.
Proof.
  induction l as [|c l [a IH]]; [exists []; reflexivity|].
  simpl. destruct (p c).
  - exists (c :: a). simpl. now rewrite <- IH.
  - exists []. reflexivity.
Qed.

Lemma drop_while_no_leading (l : list ascii) : no_leading p (drop_while p l) = true.
Proof.
  induction l as [|c l IH]; [reflexivity|].
  simpl. destruct (p c) eqn:E; [exact IH | simpl; now rewrite E].
Qed.

Lemma drop_while_id (l : list ascii) : no_leading p l = true -> drop_while p l = l.
Proof.
  destruct l as [|c l]; [reflexivity|]. simpl. now destruct (p c).
Qed.

Lemma drop_while_app_keep (x y : list ascii) (c : ascii) :
  p c = false -> drop_while p (x ++ c :: y) = drop_while p x ++ c :: y.
Proof.
  intros Hc. induction x as [|d x IH]; simpl.
  - now rewrite Hc.
  - destruct (p d); [exact IH | reflexivity].
Qed.

Lemma strip_ends_infix (l : list ascii) :
  exists a z, l = a ++ strip_ends p l ++ z.
Proof.
  unfold strip_ends.
  destruct (drop_while_suffix l) as [a Ha].
  destruct (drop_while_suffix (rev (drop_while p l))) as [z Hz].
  exists a, (rev z). rewrite <- rev_app_distr, <- Hz, rev_involutive. exact Ha.
Qed.

Lemma strip_ends_no_leading (l : list ascii) : no_leading p (strip_ends p l) = true.
Proof.
  unfold strip_ends.
  pose proof (drop_while_no_leading l) as Hd.
  destruct (drop_while p l) as [|c d]; [reflexivity|].
  simpl in Hd. apply negb_true_iff in Hd.
  simpl rev. rewrite drop_while_app_keep by assumption.
  rewrite rev_app_distr. simpl. now rewrite Hd.
Qed.

Lemma strip_ends_no_trailing (l : list ascii) :
  no_leading p (rev (strip_ends p l)) = true.
Proof. unfold strip_ends. rewrite rev_involutive. apply drop_while_no_leading. Qed.

Lemma strip_ends_id (l : list ascii) :
  no_leading p l = true -> no_leading p (rev l) = true -> strip_ends p l = l.
Proof.
  intros H1 H2. unfold strip_ends.
  rewrite (drop_while_id l H1), (drop_while_id (rev l) H2). apply rev_involutive.
Qed.

Lemma single_runs_mono (l : list ascii) :
  single_runs p true l = true -> single_runs p false l = true.
Proof. destruct l as [|c l]; [reflexivity|]. simpl. now destruct (p c). Qed.

Lemma single_runs_suffix (a m : list ascii) (b : bool) :
  single_runs p b (a ++ m) = true -> single_runs p false m = true.
Proof.
  revert b. induction a as [|c a IH]; intros b H; simpl in H.
  - destruct b; [now apply single_runs_mono | exact H].
  - destruct (p c); [apply andb_true_iff in H; destruct H as [_ H]|]; now apply IH in H.
Qed.

Lemma single_runs_prefix (m z : list ascii) (b : bool) :
  single_runs p b (m ++ z) = true -> single_runs p b m = true.
Proof.
  revert b. induction m as [|c m IH]; intros b H; [reflexivity|].
  simpl in *. destruct (p c); [|now apply IH].
  apply andb_true_iff in H. destruct H as [Hb H].
  rewrite Hb. now apply IH.
Qed.

Lemma single_runs_lead (l : list ascii) :
  no_leading p l = true -> single_runs p false l = true ->
  single_runs p true l = true.
Proof.
  destruct l as [|c l]; [reflexivity|]. simpl.
  destruct (p c); [discriminate | auto].
Qed.

Lemma single_runs_no_leading (l : list ascii) :
  single_runs p true l = true -> no_leading p l = true.
Proof. destruct l as [|c l]; [reflexivity|]. simpl. now destruct (p c). Qed.

Variable r : ascii.

Lemma replace_runs_single (l : list ascii) (b : bool) :
  p r = true -> single_runs p b (replace_runs p [r] b l) = true.
Proof.
  intros Hr. revert b. induction l as [|c l IH]; intros b; [reflexivity|].
  simpl. destruct (p c) eqn:E.
  - destruct b; [apply IH|]. simpl. rewrite Hr. apply IH.
  - simpl. rewrite E. apply IH.
Qed.

Lemma replace_runs_Forall (Q Q' : ascii -> Prop) (l : list ascii) (b : bool) :
  Forall Q l -> Q' r -> (forall c, Q c -> p c = false -> Q' c) ->
  Forall Q' (replace_runs p [r] b l).
Proof.
  intros Hl Hr HQ. revert b. induction Hl as [|c l Hc _ IH]; intros b; [constructor|].
  simpl. destruct (p c) eqn:E.
  - destruct b; [apply IH|]. simpl. constructor; [exact Hr | apply IH].
  - constructor; [now apply HQ | apply IH].
Qed.

Lemma replace_runs_free (rep l : list ascii) (b : bool) :
  Forall (fun c => p c = false) l -> replace_runs p rep b l = l.
Proof.
  intros Hl. revert b. induction Hl as [|c l Hc _ IH]; intros b; [reflexivity|].
  simpl. rewrite Hc. now rewrite IH.
Qed.

Lemma replace_runs_fixed (l : list ascii) (b : bool) :
  single_runs p b l = true -> Forall (fun c => p c = true -> c = r) l ->
  replace_runs p [r] b l = l.
Proof.
  intros Hs Hl. revert b Hs. induction Hl as [|c l Hc _ IH]; intros b Hs; [reflexivity|].
  simpl in *. destruct (p c) eqn:E.
  - apply andb_true_iff in Hs. destruct Hs as [Hb Hs].
    apply negb_true_iff in Hb. subst b. simpl.
    rewrite (IH _ Hs). now rewrite (Hc eq_refl).
  - now rewrite (IH _ Hs).
Qed.

Lemma replace_runs_snoc (rep x : list ascii) (c : ascii) (b : bool) :
  p c = false ->
  replace_runs p rep b (x ++ [c]) = replace_runs p rep b x ++ [c].
Proof.
  intros Hc. revert b. induction x as [|d x IH]; intros b; simpl.
  - now rewrite Hc.
  - destruct (p d).
    + destruct b; rewrite IH; [reflexivity | now rewrite app_assoc].
    + now rewrite IH.
Qed.

Lemma replace_runs_no_leading (rep l : list ascii) :
  no_leading p l = true -> no_leading p (replace_runs p rep false l) = true.
Proof.
  destruct l as [|c l]; [reflexivity|]. simpl.
  destruct (p c) eqn:E; [discriminate|]. intros _. simpl. now rewrite E.
Qed.

Lemma replace_runs_no_trailing (rep l : list ascii) :
  no_leading p (rev l) = true ->
  no_leading p (rev (replace_runs p rep false l)) = true.
Proof.
  intros H. destruct (rev l) as [|c y] eqn:E.
  - apply (f_equal (@rev ascii)) in E. rewrite rev_involutive in E. now subst l.
  - apply (f_equal (@rev ascii)) in E. rewrite rev_involutive in E. simpl in E. subst l.
    simpl in H. apply negb_true_iff in H.
    rewrite replace_runs_snoc by assumption.
    rewrite rev_app_distr. simpl. now rewrite H.
Qed.

End RunsAndEnds.

Section Whitespace.

Import Strings.

Lemma space_char (c : ascii) :
  is_space c = true -> Nat.eqb (code c) 32 = true -> c = " "%char.
Proof.
  intros _ H. apply Nat.eqb_eq in H. unfold code in H.
  rewrite <- (ascii_nat_embedding c), H. reflexivity.
Qed.

Lemma normalize_tidy (l : list ascii) :
  tidy (replace_runs is_space [" "%char] false (trim l)) = true.
Proof.
  unfold tidy, trim. rewrite !andb_true_iff. split; [split|].
  - apply forallb_true_Forall.
    apply (replace_runs_Forall is_space " "%char (fun _ => True)).
    + clear. induction (strip_ends is_space l); constructor; auto.
    + reflexivity.
    + intros c _ Hc. now rewrite Hc.
  - apply single_runs_lead.
    + apply replace_runs_no_leading, strip_ends_no_leading.
    + now apply replace_runs_single.
  - apply replace_runs_no_trailing, strip_ends_no_trailing.
Qed.

Lemma tidy_fixed (l : list ascii) :
  tidy l = true -> replace_runs is_space [" "%char] false (trim l) = l.
Proof.
  unfold tidy, trim. rewrite !andb_true_iff. intros [[Hall Hruns] Hend].
  rewrite strip_ends_id; [|now apply single_runs_no_leading | assumption].
  apply replace_runs_fixed; [now apply single_runs_mono|].
  apply forallb_true_Forall in Hall. clear Hruns Hend.
  induction Hall as [|c l' Hc _ IH]; [constructor|].
  constructor; [|exact IH].
  intros Hs. rewrite Hs in Hc. simpl in Hc. now apply space_char.
Qed.

(** The result of [normalizeWhitespace] is tidy: its only whitespace is
    single spaces between other characters; a tidy string is returned
    unchanged; so normalizing twice is normalizing once. *)
Theorem normalizeWhitespace_tidy (str : string) :
  tidy (JS.chars (normalizeWhitespace str)) = true /\
  (tidy (JS.chars str) = true -> normalizeWhitespace str = str) /\
  normalizeWhitespace (normalizeWhitespace str) = normalizeWhitespace str.
Proof.
  assert (Hfix : forall s, tidy (JS.chars s) = true -> normalizeWhitespace s = s).
  { intros s H. unfold normalizeWhitespace. change (JS.chars " ") with [" "%char].
    rewrite tidy_fixed by assumption. apply of_chars_chars. }
  assert (Ht : tidy (JS.chars (normalizeWhitespace str)) = true).
  { unfold normalizeWhitespace. rewrite chars_of_chars. apply normalize_tidy. }
  split; [exact Ht|]. split; [apply Hfix|]. apply Hfix, Ht.
Qed.

End Whitespace.

Lemma normalizeWhitespace_tidy_witness :
  Strings.normalizeWhitespace "hello world" = "hello world".
Proof.
  apply (proj1 (proj2 (normalizeWhitespace_tidy "hello world"))). reflexivity.
Defined.

Section Slug.

Import Strings.

Lemma lower_char_not_upper (c : ascii) : is_upper (lower_char c) = false.
Proof. destruct c as [[] [] [] [] [] [] [] []]; reflexivity. Qed.

Lemma kept_char_slug (c : ascii) :
  implb (slug_kept c && negb (is_upper c) && negb (slug_gap c)) (is_slug_char c) = true.
Proof. destruct c as [[] [] [] [] [] [] [] []]; reflexivity. Qed.

Lemma slug_char_plain (c : ascii) :
  implb (is_slug_char c)
    (negb (is_space c) && negb (slug_gap c) && slug_kept c
     && Ascii.eqb (lower_char c) c) = true.
Proof. destruct c as [[] [] [] [] [] [] [] []]; reflexivity. Qed.

Lemma dash_char (c : ascii) : is_dash c = true -> c = "-"%char.
Proof.
  unfold is_dash, code. intros H. apply Nat.eqb_eq in H.
  rewrite <- (ascii_nat_embedding c), H. reflexivity.
Qed.

Lemma Forall_infix (Q : ascii -> Prop) (l a m z : list ascii) :
  l = a ++ m ++ z -> Forall Q l -> Forall Q m.
Proof.
  intros -> H. apply Forall_app in H. destruct H as [_ H].
  apply Forall_app in H. now destruct H.
Qed.

Lemma filter_all (q : ascii -> bool) (l : list ascii) :
  Forall (fun c => q c = true) l -> List.filter q l = l.
Proof.
  induction 1 as [|c l Hc _ IH]; simpl; [reflexivity|]. now rewrite Hc, IH.
Qed.

Lemma no_leading_free (q : ascii -> bool) (l : list ascii) :
  Forall (fun c => q c = false) l -> no_leading q l = true.
Proof. destruct 1 as [|c l Hc _]; [reflexivity|]. simpl. now rewrite Hc. Qed.

Lemma slugify_steps (str : string) :
  slugify str = JS.of_chars (slug_steps (JS.chars str)).
Proof. reflexivity. Qed.

Lemma slug_steps_slug (l : list ascii) : is_slug (slug_steps l) = true.
Proof.
  unfold slug_steps.
  set (s2 := trim (map lower_char l)).
  set (s3 := List.filter slug_kept s2).
  set (s4 := replace_runs slug_gap ["-"%char] false s3).
  set (s5 := replace_runs is_dash ["-"%char] false s4).
  assert (H2 : Forall (fun c => is_upper c = false) s2).
  { destruct (strip_ends_infix is_space (map lower_char l)) as [a [z Hz]].
    apply (Forall_infix _ _ _ _ _ Hz).
    clear. induction l as [|c l IH]; constructor; [apply lower_char_not_upper | exact IH]. }
  assert (H3 : Forall (fun c => slug_kept c = true /\ is_upper c = false) s3).
  { subst s3. induction H2 as [|c s Hc _ IH]; simpl; [constructor|].
    destruct (slug_kept c) eqn:E; [constructor; auto | exact IH]. }
  assert (H4 : Forall (fun c => is_slug_char c = true) s4).
  { apply (replace_runs_Forall slug_gap "-"%char _ _ s3 false H3); [reflexivity|].
    intros c [Hk Hu] Hg. pose proof (kept_char_slug c) as F.
    rewrite Hk, Hu, Hg in F. exact F. }
  assert (H5 : Forall (fun c => is_slug_char c = true) s5).
  { apply (replace_runs_Forall is_dash "-"%char _ _ s4 false H4); [reflexivity | auto]. }
  assert (R5 : single_runs is_dash false s5 = true)
    by (now apply replace_runs_single).
  destruct (strip_ends_infix is_dash s5) as [a [z Hz]].
  unfold is_slug. rewrite !andb_true_iff. split; [split|].
  - apply forallb_true_Forall. exact (Forall_infix _ _ _ _ _ Hz H5).
  - apply single_runs_lead; [apply strip_ends_no_leading|].
    rewrite Hz in R5. apply single_runs_suffix in R5.
    now apply single_runs_prefix in R5.
  - apply strip_ends_no_trailing.
Qed.

Lemma slug_steps_fixed (l : list ascii) : is_slug l = true -> slug_steps l = l.
Proof.
  unfold is_slug. rewrite !andb_true_iff. intros [[Hall Hruns] Hend].
  apply forallb_true_Forall in Hall.
  assert (Hplain : Forall (fun c => is_space c = false /\ slug_gap c = false /\
                                    slug_kept c = true /\ lower_char c = c) l).
  { clear Hruns Hend. induction Hall as [|c l Hc _ IH]; constructor; [|exact IH].
    pose proof (slug_char_plain c) as F. rewrite Hc in F. simpl in F.
    rewrite !andb_true_iff, !negb_true_iff in F.
    destruct F as [[[Fs Fg] Fk] Fl]. apply Ascii.eqb_eq in Fl. auto. }
  unfold slug_steps.
  assert (E1 : map lower_char l = l).
  { clear -Hplain. induction Hplain as [|c l [_ [_ [_ Hc]]] _ IH]; simpl; [reflexivity|].
    now rewrite Hc, IH. }
  assert (Hsp : Forall (fun c => is_space c = false) l).
  { clear -Hplain. induction Hplain as [|c l [Hc _] _ IH]; constructor; auto. }
  assert (E2 : trim l = l).
  { apply strip_ends_id; apply no_leading_free; [exact Hsp | now apply Forall_rev]. }
  assert (E3 : List.filter slug_kept l = l).
  { apply filter_all. clear -Hplain.
    induction Hplain as [|c l [_ [_ [Hc _]]] _ IH]; constructor; auto. }
  assert (E4 : replace_runs slug_gap ["-"%char] false l = l).
  { apply replace_runs_free. clear -Hplain.
    induction Hplain as [|c l [_ [Hc _]] _ IH]; constructor; auto. }
  assert (E5 : replace_runs is_dash ["-"%char] false l = l).
  { apply replace_runs_fixed; [now apply single_runs_mono|].
    clear. induction l as [|c l IH]; constructor; [apply dash_char | exact IH]. }
  rewrite E1, E2, E3, E4, E5.
  apply strip_ends_id; [now apply single_runs_no_leading | assumption].
Qed.

(** The result of [slugify] is a slug: it holds lower-case letters, digits
    and dashes only, does not start or end with a dash and has no two
    dashes in a row; a slug is returned unchanged; so [slugify] applied
    twice is [slugify] applied once. *)
Theorem slugify_slug (str : string) :
  is_slug (JS.chars (slugify str)) = true /\
  (is_slug (JS.chars str) = true -> slugify str = str) /\
  slugify (slugify str) = slugify str.
Proof.
  assert (Hfix : forall s, is_slug (JS.chars s) = true -> slugify s = s).
  { intros s H. rewrite slugify_steps, slug_steps_fixed by assumption.
    apply of_chars_chars. }
  assert (Hs : is_slug (JS.chars (slugify str)) = true).
  { rewrite slugify_steps, chars_of_chars. apply slug_steps_slug. }
  split; [exact Hs|]. split; [apply Hfix|]. apply Hfix, Hs.
Qed.

End Slug.

Lemma slugify_slug_witness : Strings.slugify "hello-world" = "hello-world".
Proof.
  apply (proj1 (proj2 (slugify_slug "hello-world"))). reflexivity.
Defined.

Section MoreStrings.

Import Strings.

Lemma chars_truncate (s : string) (n : nat) (suffix : string) :
  JS.chars (Manipulation.truncate s (Z.of_nat n) suffix)
  = if (length (JS.chars s) <=? n)%nat then JS.chars s
    else take n (JS.chars s) ++ JS.chars suffix.
Proof.
  unfold Manipulation.truncate. rewrite js_length_chars.
  destruct (Z.leb_spec (Z.of_nat (length (JS.chars s))) (Z.of_nat n));
    [rewrite (proj2 (Nat.leb_le _ _)) by lia; reflexivity
    |rewrite (proj2 (Nat.leb_gt _ _)) by lia].
  rewrite chars_app, chars_slice by lia. rewrite drop_0. do 2 f_equal. lia.
Qed.

(** Truncating is idempotent, whatever the suffix, and the result is never
    longer than the limit plus the suffix: it may exceed the limit itself,
    by the length of the suffix. *)
Theorem truncate_idempotent (s : string) (n : nat) (suffix : string) :
  Manipulation.truncate (Manipulation.truncate s (Z.of_nat n) suffix) (Z.of_nat n) suffix
  = Manipulation.truncate s (Z.of_nat n) suffix /\
  (String.length (Manipulation.truncate s (Z.of_nat n) suffix)
   <= n + String.length suffix)%nat.
Proof.
  split.
  - apply chars_inj. rewrite (chars_truncate (Manipulation.truncate _ _ _)).
    rewrite !chars_truncate.
    destruct (Nat.leb_spec (length (JS.chars s)) n) as [H|H].
    + now rewrite (proj2 (Nat.leb_le _ _)) by lia.
    + destruct (Nat.leb_spec (length (take n (JS.chars s) ++ JS.chars suffix)) n) as [H'|H'];
        [reflexivity|].
      rewrite take_app_le by (rewrite length_take; lia).
      rewrite take_take, Nat.min_id. reflexivity.
  - rewrite <- !chars_length, chars_truncate.
    destruct (Nat.leb_spec (length (JS.chars s)) n) as [H|H]; [lia|].
    rewrite length_app, length_take. lia.
Qed.

(** Reversing twice gives the string back, reversing keeps the length, and
    the reverse of a concatenation is the concatenation of the reverses in
    the opposite order. *)
Theorem reverse_involutive (s t : string) :
  reverse (reverse s) = s /\
  String.length (reverse s) = String.length s /\
  reverse (s +:+ t) = reverse t +:+ reverse s.
Proof.
  unfold reverse. split; [|split].
  - rewrite chars_of_chars, rev_involutive. apply of_chars_chars.
  - rewrite <- !chars_length, chars_of_chars. apply length_rev.
  - apply chars_inj. rewrite !chars_app, !chars_of_chars. apply rev_app_distr.
Qed.

Lemma strip_keeps_no_gt (l : list ascii) :
  (existsb is_gt (strip_tags l) = true -> existsb is_gt l = true) /\
  (existsb is_gt (skip_tag l) = true -> existsb is_gt l = true).
Proof.
  induction l as [|c l [IH1 IH2]]; [split; auto|].
  split; simpl.
  - destruct (is_lt c && existsb is_gt l) eqn:E.
    + intros H. rewrite (IH2 H). apply orb_true_r.
    + simpl. intros H. apply orb_true_iff in H. destruct H as [H|H].
      * now rewrite H.
      * rewrite (IH1 H). apply orb_true_r.
  - destruct (is_gt c); [reflexivity|]. exact IH2.
Qed.

Lemma strip_tags_no_tag (l : list ascii) :
  no_tag (strip_tags l) = true /\ no_tag (skip_tag l) = true.
Proof.
  induction l as [|c l [IH1 IH2]]; [split; reflexivity|].
  split; simpl.
  - destruct (is_lt c && existsb is_gt l) eqn:E; [exact IH2|].
    simpl. rewrite IH1, andb_true_r. apply negb_true_iff.
    destruct (is_lt c); [|reflexivity]. simpl in *.
    destruct (existsb is_gt (strip_tags l)) eqn:G; [|reflexivity].
    apply (proj1 (strip_keeps_no_gt l)) in G. congruence.
  - destruct (is_gt c); assumption.
Qed.

Lemma no_tag_fixed (l : list ascii) : no_tag l = true -> strip_tags l = l.
Proof.
  induction l as [|c l IH]; [reflexivity|].
  simpl. intros H. apply andb_true_iff in H. destruct H as [Hc Hl].
  apply negb_true_iff in Hc. rewrite Hc. now rewrite IH.
Qed.

(** After [stripHtml] no [<] of the result has a [>] anywhere after it, so
    no tag is left; a string without such a pair is returned unchanged; so
    stripping twice is stripping once. *)
Theorem stripHtml_no_tag (str : string) :
  no_tag (JS.chars (stripHtml str)) = true /\
  (no_tag (JS.chars str) = true -> stripHtml str = str) /\
  stripHtml (stripHtml str) = stripHtml str.
Proof.
  assert (Hfix : forall s, no_tag (JS.chars s) = true -> stripHtml s = s).
  { intros s H. unfold stripHtml. rewrite no_tag_fixed by assumption.
    apply of_chars_chars. }
  assert (Hn : no_tag (JS.chars (stripHtml str)) = true).
  { unfold stripHtml. rewrite chars_of_chars. apply strip_tags_no_tag. }
  split; [exact Hn|]. split; [apply Hfix|]. apply Hfix, Hn.
Qed.

End MoreStrings.

Lemma stripHtml_no_tag_witness : Strings.stripHtml "a < b" = "a < b".
Proof.
  apply (proj1 (proj2 (stripHtml_no_tag "a < b"))). reflexivity.
Defined.

Section Mask.

Import Strings.

Lemma chars_repeat_char (c : ascii) (k : nat) :
  JS.chars (String.concat "" (repeat (String c EmptyString) k)) = repeat c k.
Proof.
  induction k as [|k IH]; [reflexivity|].
  destruct k as [|k]; [reflexivity|].
  change (repeat (String c EmptyString) (S (S k)))
    with (String c EmptyString :: String c EmptyString :: repeat (String c EmptyString) k).
  rewrite chars_concat_cons.
  change (String c EmptyString :: repeat (String c EmptyString) k)
    with (repeat (String c EmptyString) (S k)).
  rewrite IH. reflexivity.
Qed.

(** [mask] throws a RangeError when the end position lies before the start
    (also when the end is left out and the start lies beyond the string).
    With a one-character mask and [0 <= start <= end <= length] it returns
    a string of the same length: the characters before [start] and from the
    end position on are those of the input, the ones between are the mask
    character. *)
Theorem mask_spec (str : string) (start : Z) (end_ : option Z) (maskChar : string)
    (c : ascii) :
  (default (JS.length str) end_ < start ->
     mask str start end_ maskChar = Eff.Throw "RangeError") /\
  (0 <= start <= default (JS.length str) end_ ->
   default (JS.length str) end_ <= JS.length str ->
   exists r,
     mask str start end_ (String c EmptyString) = Eff.Ok r /\
     JS.chars r
     = take (Z.to_nat start) (JS.chars str)
       ++ repeat c (Z.to_nat (default (JS.length str) end_ - start))
       ++ drop (Z.to_nat (default (JS.length str) end_)) (JS.chars str) /\
     String.length r = String.length str).
Proof.
  unfold mask, js_repeat. set (endPos := default (JS.length str) end_).
  split.
  - intros H. destruct (Z.ltb_spec (endPos - start) 0); [reflexivity | lia].
  - intros Hs He. destruct (Z.ltb_spec (endPos - start) 0); [lia|].
    eexists. split; [reflexivity|].
    assert (Hc : JS.chars
              (JS.slice str 0 start
               +:+ String.concat "" (repeat (String c EmptyString) (Z.to_nat (endPos - start)))
               +:+ JS.slice_from str endPos)
            = take (Z.to_nat start) (JS.chars str)
              ++ repeat c (Z.to_nat (endPos - start))
              ++ drop (Z.to_nat endPos) (JS.chars str)).
    { rewrite !chars_app, chars_slice, chars_slice_from, chars_repeat_char by lia.
      rewrite drop_0. do 2 f_equal. lia. }
    split; [exact Hc|].
    rewrite <- !chars_length, Hc.
    rewrite !length_app, length_take, repeat_length, length_drop.
    rewrite js_length_chars in He. lia.
Qed.

Lemma mask_spec_witness :
  mask "1234567890" 7 (Some 3) "*" = Eff.Throw "RangeError" /\
  exists r, mask "1234567890" 3 (Some 7) "*" = Eff.Ok r /\
            String.length r = 10%nat.
Proof.
  split.
  - apply (proj1 (mask_spec "1234567890" 7 (Some 3) "*" "*"%char)). simpl. lia.
  - destruct (proj2 (mask_spec "1234567890" 3 (Some 7) "*" "*"%char))
      as [r [Hr [_ Hl]]]; [simpl; lia | vm_compute; discriminate |].
    exists r. split; [exact Hr | exact Hl].
Defined.

End Mask.

(** ** The storage-sync hook: writing, removing and listening *)

Section StorageHookProps.

Import StorageHook.

Variable T : Type.
Variable JSON_parse : string -> Eff.result T.
Variable JSON_stringify : T -> string.

Local Abbreviation setValue := (StorageHook.setValue T JSON_stringify).
Local Abbreviation removeValue := (StorageHook.removeValue T).
Local Abbreviation readValue := (StorageHook.readValue T JSON_parse).
Local Abbreviation handleStorageChange := (StorageHook.handleStorageChange T JSON_parse).

Lemma truthy_item_nonempty (text : string) :
  text <> "" -> LocalStorage.truthy_item (Some text) = Some text.
Proof. destruct text; [contradiction | reflexivity]. Qed.

(** What [readValue] returns when the storage can be read. *)
Lemma readValue_items (pf : Platform) (key : string) (initialValue : T)
    (sh : Shared) (own : T) (text : string) (v : T) :
  isBrowser pf = true -> denied pf = false ->
  items sh !! key = Some text -> text <> "" -> JSON_parse text = Eff.Ok v ->
  readValue pf key initialValue (sh, own)
  = (Eff.Ok v, ({| items := items sh; events := events sh; console := console sh |}, own)).
Proof.
  intros Hb Hd Hi Ht Hp.
  unfold StorageHook.readValue, LocalStorage.readValue, env_of. simpl.
  rewrite Hb, Hd. simpl.
  unfold Eff.try_catch, Eff.bind, Eff.lift. rewrite Hi.
  rewrite truthy_item_nonempty by assumption. rewrite Hp. reflexivity.
Qed.

Lemma readValue_absent (pf : Platform) (key : string) (initialValue : T)
    (sh : Shared) (own : T) :
  isBrowser pf = true -> denied pf = false -> items sh !! key = None ->
  readValue pf key initialValue (sh, own)
  = (Eff.Ok initialValue,
     ({| items := items sh; events := events sh; console := console sh |}, own)).
Proof.
  intros Hb Hd Hi.
  unfold StorageHook.readValue, LocalStorage.readValue, env_of. simpl.
  rewrite Hb, Hd. simpl.
  unfold Eff.try_catch, Eff.bind, Eff.lift. rewrite Hi. reflexivity.
Qed.

(** A value written by one instance is what every instance of the same key
    reads next.  When the write is accepted and the stored text parses back
    to the value, [setValue] stores the text under the key, sets the
    writer's value and dispatches the [local-storage] event; and another
    instance of the key, whatever its own value and initial value, ends
    with the written value when its listener runs on that event. *)
Theorem setValue_then_listen (pf : Platform) (key : string) (v : T)
    (sh : Shared) (own other initialValue : T) (e : StorageEvent) :
  isBrowser pf = true -> denied pf = false ->
  accepts pf key (JSON_stringify v) = true ->
  JSON_parse (JSON_stringify v) = Eff.Ok v ->
  JSON_stringify v <> "" ->
  other_key e key = false ->
  exists sh',
    setValue pf key (Value T v) (sh, own) = (Eff.Ok tt, (sh', v)) /\
    items sh' = <[key := JSON_stringify v]> (items sh) /\
    events sh' = events sh ++ ["local-storage"] /\
    console sh' = console sh /\
    handleStorageChange pf key initialValue e (sh', other) = (Eff.Ok tt, (sh', v)).
Proof.
  intros Hb Hd Ha Hp Hne He.
  eexists. split.
  - unfold StorageHook.setValue. rewrite Hb. simpl.
    unfold Eff.try_catch, Eff.bind, setItem. simpl. rewrite Hd, Ha. simpl.
    reflexivity.
  - simpl. split; [reflexivity|]. split; [reflexivity|]. split; [reflexivity|].
    unfold StorageHook.handleStorageChange. rewrite He.
    unfold Eff.bind.
    erewrite readValue_items; try eassumption; [reflexivity|].
    simpl. apply lookup_insert_eq.
Qed.

(** [setValue] never throws, and a write that cannot be made changes
    nothing: outside a browser, when the storage is denied or when it
    refuses the text, the stored items, the events and the instance's
    value are as before, and one warning is logged. *)
Theorem setValue_failure_contained (pf : Platform) (key : string)
    (value : SetStateAction T) (s : State T) :
  fst (setValue pf key value s) = Eff.Ok tt /\
  (isBrowser pf = false \/ denied pf = true \/
   accepts pf key (JSON_stringify (match value with
                                   | Value _ v => v
                                   | Update _ f => f (snd s)
                                   end)) = false ->
   exists msg,
     snd (setValue pf key value s)
     = ({| items := items (fst s); events := events (fst s);
           console := console (fst s) ++ [msg] |}, snd s)).
Proof.
  unfold StorageHook.setValue.
  destruct (isBrowser pf) eqn:Hb; simpl.
  2:{ split; [reflexivity|]. intros _. eexists. reflexivity. }
  unfold Eff.try_catch, Eff.bind, setItem. simpl.
  destruct (denied pf) eqn:Hd; simpl.
  { split; [reflexivity|]. intros _. eexists. reflexivity. }
  destruct (accepts pf key _) eqn:Ha; simpl.
  - split; [reflexivity|]. intros [H|[H|H]]; discriminate.
  - split; [reflexivity|]. intros _. eexists. reflexivity.
Qed.

(** After [removeValue] in a browser with the storage available the key is
    gone, the remover's value is its initial value and the event is
    dispatched; an instance of the key whose listener runs on the event
    falls back to its own initial value, which need not be the
    remover's. *)
Theorem removeValue_then_listen (pf : Platform) (key : string)
    (sh : Shared) (own initialValue other otherInitial : T) (e : StorageEvent) :
  isBrowser pf = true -> denied pf = false -> other_key e key = false ->
  exists sh',
    removeValue pf key initialValue (sh, own) = (Eff.Ok tt, (sh', initialValue)) /\
    items sh' = delete key (items sh) /\
    events sh' = events sh ++ ["local-storage"] /\
    handleStorageChange pf key otherInitial e (sh', other)
    = (Eff.Ok tt, (sh', otherInitial)).
Proof.
  intros Hb Hd He.
  eexists. split.
  - unfold StorageHook.removeValue. rewrite Hb. simpl.
    unfold Eff.try_catch, Eff.bind, removeItem. simpl. rewrite Hd. simpl.
    reflexivity.
  - simpl. split; [reflexivity|]. split; [reflexivity|].
    unfold StorageHook.handleStorageChange. rewrite He.
    unfold Eff.bind.
    erewrite readValue_absent; try eassumption; [reflexivity|].
    simpl. apply lookup_delete_eq.
Qed.

(** Keys do not interfere: a listener ignores the native storage events of
    other keys, and what [readValue] returns for a key is not changed by
    [setValue] or [removeValue] on another key. *)
Theorem other_keys_untouched (pf : Platform) (key key' : string)
    (value : SetStateAction T) (initialValue init' : T) (s : State T) :
  key' <> "" -> key' <> key ->
  handleStorageChange pf key initialValue (Native (Some key')) s = (Eff.Ok tt, s) /\
  fst (readValue pf key initialValue (snd (setValue pf key' value s)))
  = fst (readValue pf key initialValue s) /\
  fst (readValue pf key initialValue (snd (removeValue pf key' init' s)))
  = fst (readValue pf key initialValue s).
Proof.
  intros Hne Hk. split; [|split].
  - unfold StorageHook.handleStorageChange, other_key.
    destruct (String.eqb_spec key' ""); [contradiction|].
    destruct (String.eqb_spec key' key); [contradiction|]. reflexivity.
  - unfold StorageHook.setValue.
    destruct (isBrowser pf) eqn:Hb; simpl.
    2:{ unfold StorageHook.readValue, LocalStorage.readValue, env_of. simpl.
        now rewrite Hb. }
    unfold Eff.try_catch, Eff.bind, setItem. simpl.
    destruct (denied pf) eqn:Hd; simpl.
    { unfold StorageHook.readValue, LocalStorage.readValue, env_of. simpl.
      rewrite Hb, Hd. reflexivity. }
    destruct (accepts pf key' _) eqn:Ha; simpl.
    + unfold StorageHook.readValue, LocalStorage.readValue, env_of. simpl.
      rewrite Hb, Hd. simpl. unfold Eff.try_catch, Eff.bind, Eff.lift.
      rewrite lookup_insert_ne by assumption.
      destruct (items (fst s) !! key) as [text|]; [|reflexivity].
      destruct (LocalStorage.truthy_item (Some text)) as [stored|]; [|reflexivity].
      destruct (JSON_parse stored); reflexivity.
    + unfold StorageHook.readValue, LocalStorage.readValue, env_of. simpl.
      rewrite Hb, Hd. simpl. unfold Eff.try_catch, Eff.bind, Eff.lift.
      destruct (items (fst s) !! key) as [text|]; [|reflexivity].
      destruct (LocalStorage.truthy_item (Some text)) as [stored|]; [|reflexivity].
      destruct (JSON_parse stored); reflexivity.
  - unfold StorageHook.removeValue.
    destruct (isBrowser pf) eqn:Hb; simpl.
    2:{ unfold StorageHook.readValue, LocalStorage.readValue, env_of. simpl.
        now rewrite Hb. }
    unfold Eff.try_catch, Eff.bind, removeItem. simpl.
    destruct (denied pf) eqn:Hd; simpl.
    { unfold StorageHook.readValue, LocalStorage.readValue, env_of. simpl.
      rewrite Hb, Hd. reflexivity. }
    unfold StorageHook.readValue, LocalStorage.readValue, env_of. simpl.
    rewrite Hb, Hd. simpl. unfold Eff.try_catch, Eff.bind, Eff.lift.
    rewrite lookup_delete_ne by assumption.
    destruct (items (fst s) !! key) as [text|]; [|reflexivity].
    destruct (LocalStorage.truthy_item (Some text)) as [stored|]; [|reflexivity].
    destruct (JSON_parse stored); reflexivity.
Qed.

End StorageHookProps.

(** ** The log store: what listeners receive *)

Section LogPanelProps.

Import ApiLogger LogPanel.

Lemma step_deliveries_bounded (st : Store) (c : call) :
  (length (globalLogs st) <= 100)%nat ->
  Forall (fun d => (length (delivered d) <= 100)%nat) (snd (step st c)).
Proof.
  intros H. destruct c as [log t| |l|l]; simpl.
  - destruct (notify_listeners (logListeners st)
                (take 100 (newLog log t :: globalLogs st))) as [_ Hd].
    eapply Forall_impl; [exact Hd|]. intros d ->. rewrite length_take. lia.
  - destruct (notify_listeners (logListeners st) []) as [_ Hd].
    eapply Forall_impl; [exact Hd|]. intros d ->. simpl. lia.
  - constructor; [exact H | constructor].
  - constructor.
Qed.

Lemma run_trace_bounded (cs : list call) (st : Store) :
  (length (globalLogs st) <= 100)%nat ->
  Forall (fun d => (length (delivered d) <= 100)%nat) (run_trace cs st).
Proof.
  revert st. induction cs as [|c cs IH]; intros st H; simpl; [constructor|].
  apply Forall_app. split; [now apply step_deliveries_bounded|].
  apply IH. now apply step_bounded.
Qed.

Lemma shown_take (maxLogs : Z) (logs : list ApiLogEntry) :
  0 <= maxLogs -> shown maxLogs logs = take (Z.to_nat maxLogs) logs.
Proof.
  intros H. unfold shown, list_slice, JS.rel_index.
  change (0 <? 0) with false. cbv iota.
  destruct (Z.ltb_spec maxLogs 0); [lia|].
  rewrite (Z.min_l 0) by lia. change (Z.to_nat 0) with 0%nat. rewrite drop_0.
  destruct (Z_le_gt_dec maxLogs (Z.of_nat (length logs))).
  - rewrite Z.min_l by lia. f_equal. lia.
  - rewrite Z.min_r by lia. rewrite !take_ge by lia. reflexivity.
Qed.

(** Whatever calls are made on the store, a listener is never handed more
    than 100 entries; so a panel, which keeps the first [maxLogs] of what it
    is handed, shows at most [maxLogs] entries and never more than 100: a
    [maxLogs] above 100 has no effect. *)
Theorem panel_shows_at_most (cs : list call) (maxLogs : Z) (d : Delivery) :
  In d (run_trace cs initial) ->
  0 <= maxLogs ->
  (length (delivered d) <= 100)%nat /\
  shown maxLogs (delivered d) = take (Z.to_nat maxLogs) (delivered d) /\
  (length (shown maxLogs (delivered d)) <= Nat.min (Z.to_nat maxLogs) 100)%nat /\
  (100 <= maxLogs -> shown maxLogs (delivered d) = delivered d).
Proof.
  intros Hin Hm.
  assert (Hb : (length (delivered d) <= 100)%nat).
  { pose proof (run_trace_bounded cs initial) as H.
    rewrite List.Forall_forall in H. apply H; [simpl; lia | exact Hin]. }
  split; [exact Hb|]. rewrite shown_take by assumption.
  split; [reflexivity|]. split.
  - rewrite length_take. lia.
  - intros H. apply take_ge. lia.
Qed.

Lemma panel_shows_at_most_witness :
  shown 200 [newLog Samples.log_input (Samples.tick 1)]
  = [newLog Samples.log_input (Samples.tick 1)].
Proof.
  refine (proj2 (proj2 (proj2
            (panel_shows_at_most
               [Subscribe 7%nat; Add Samples.log_input (Samples.tick 1)]
               200
               {| to_listener := 7%nat;
                  delivered := [newLog Samples.log_input (Samples.tick 1)] |}
               _ _))) _); try lia.
  simpl. right. left. reflexivity.
Defined.

End LogPanelProps.

(** ** The storage hook on the sample platform *)

Lemma setValue_then_listen_witness :
  exists sh',
    StorageHook.setValue Z StorageSamples.stringify_Z StorageSamples.browser "count"
      (StorageHook.Value Z 42) (StorageSamples.empty, 0) = (Eff.Ok tt, (sh', 42)) /\
    StorageHook.handleStorageChange Z Samples.parse_Z StorageSamples.browser "count" 5
      (StorageHook.Custom) (sh', 1) = (Eff.Ok tt, (sh', 42)).
Proof.
  destruct (setValue_then_listen Z Samples.parse_Z StorageSamples.stringify_Z
              StorageSamples.browser "count" 42 StorageSamples.empty 0 1 5
              StorageHook.Custom)
    as [sh' [Hset [_ [_ [_ Hlisten]]]]];
    try reflexivity; [vm_compute; discriminate|].
  exists sh'. split; assumption.
Defined.

Lemma setValue_failure_contained_witness :
  exists msg,
    snd (StorageHook.setValue Z StorageSamples.stringify_Z StorageSamples.full "count"
           (StorageHook.Value Z 42) (StorageSamples.empty, 0))
    = ({| StorageHook.items := ∅; StorageHook.events := [];
          StorageHook.console := [] ++ [msg] |}, 0).
Proof.
  apply (proj2 (setValue_failure_contained Z StorageSamples.stringify_Z
                  StorageSamples.full "count" (StorageHook.Value Z 42)
                  (StorageSamples.empty, 0))).
  right. right. reflexivity.
Defined.

Lemma removeValue_then_listen_witness :
  exists sh',
    StorageHook.removeValue Z StorageSamples.browser "count" 5
      (StorageSamples.empty, 42) = (Eff.Ok tt, (sh', 5)) /\
    StorageHook.handleStorageChange Z Samples.parse_Z StorageSamples.browser "count" 9
      (StorageHook.Native None) (sh', 42) = (Eff.Ok tt, (sh', 9)).
Proof.
  destruct (removeValue_then_listen Z Samples.parse_Z StorageSamples.browser "count"
              StorageSamples.empty 42 5 42 9 (StorageHook.Native None))
    as [sh' [Hrem [_ [_ Hlisten]]]]; try reflexivity.
  exists sh'. split; assumption.
Defined.

Lemma other_keys_untouched_witness :
  StorageHook.handleStorageChange Z Samples.parse_Z StorageSamples.browser "count" 5
    (StorageHook.Native (Some "theme")) (StorageSamples.empty, 42)
  = (Eff.Ok tt, (StorageSamples.empty, 42)).
Proof.
  refine (proj1 (other_keys_untouched Z Samples.parse_Z StorageSamples.stringify_Z
                   StorageSamples.browser "count" "theme" (StorageHook.Value Z 1) 5 0
                   (StorageSamples.empty, 42) _ _)); discriminate.
Defined.

(** ** The log store: the life of a listener *)

Section ListenerLife.

Import ApiLogger LogPanel.

Lemma notify_targets (ls : list listener) (logs : list ApiLogEntry) (d : Delivery) :
  In d (notify ls logs) -> In (to_listener d) ls.
Proof.
  unfold notify. intros H. apply List.in_map_iff in H.
  destruct H as [l [<- Hl]]. exact Hl.
Qed.

Lemma notify_reaches (ls : list listener) (logs : list ApiLogEntry) (l : listener) :
  In l ls -> In {| to_listener := l; delivered := logs |} (notify ls logs).
Proof.
  intros H. unfold notify.
  apply List.in_map_iff. exists l. split; [reflexivity | exact H].
Qed.

Lemma silent_run (cs : list call) (st : Store) (l : listener) :
  ~ In l (logListeners st) ->
  Forall (fun c => c <> Subscribe l) cs ->
  Forall (fun d => to_listener d <> l) (run_trace cs st).
Proof.
  intros Hl Hcs. revert st Hl.
  induction Hcs as [|c cs Hc _ IH]; intros st Hl; simpl; [constructor|].
  apply Forall_app. split.
  - apply List.Forall_forall. intros d Hd Heq.
    destruct c as [log t| |l'|l']; simpl in Hd.
    + apply notify_targets in Hd. congruence.
    + apply notify_targets in Hd. congruence.
    + destruct Hd as [<-|[]]. simpl in Heq. congruence.
    + destruct Hd.
  - apply IH. destruct c as [log t| |l'|l']; simpl; try assumption.
    + intros H. apply List.in_app_iff in H. destruct H as [H|[H|[]]]; [now apply Hl|].
      congruence.
    + intros H. apply List.filter_In in H. destruct H as [H _]. now apply Hl.
Qed.

(** A listener hears of the store from its subscription to its removal, and
    not after.  On [subscribe] it is handed the current logs at once, and
    it alone; while it is registered every [addApiLog] and [clearApiLogs]
    hands it the resulting list; after [unsubscribe], whatever calls
    follow, nothing is delivered to it unless it subscribes again. *)
Theorem listener_lifecycle (st : Store) (l : listener) (log : ApiLogInput)
    (t : Tick) (cs : list call) :
  snd (subscribe l st) = [{| to_listener := l; delivered := globalLogs st |}] /\
  In {| to_listener := l;
        delivered := globalLogs (fst (addApiLog log t (fst (subscribe l st)))) |}
     (snd (addApiLog log t (fst (subscribe l st)))) /\
  In {| to_listener := l; delivered := [] |}
     (snd (clearApiLogs (fst (subscribe l st)))) /\
  (Forall (fun c => c <> Subscribe l) cs ->
   Forall (fun d => to_listener d <> l) (run_trace cs (fst (unsubscribe l st)))).
Proof.
  split; [reflexivity|]. split; [|split].
  - simpl. apply notify_reaches, List.in_app_iff. right. now left.
  - simpl. apply notify_reaches, List.in_app_iff. right. now left.
  - apply silent_run. simpl. intros H.
    apply List.filter_In in H. destruct H as [_ H].
    rewrite Nat.eqb_refl in H. discriminate.
Qed.

Lemma listener_lifecycle_witness :
  Forall (fun d => to_listener d <> 7%nat)
    (run_trace [Add Samples.log_input (Samples.tick 1); Clear; Subscribe 8%nat]
       (fst (unsubscribe 7%nat (Samples.store_with 2)))).
Proof.
  apply (proj2 (proj2 (proj2
           (listener_lifecycle (Samples.store_with 2) 7%nat Samples.log_input
              (Samples.tick 1)
              [Add Samples.log_input (Samples.tick 1); Clear; Subscribe 8%nat])))).
  repeat constructor; discriminate.
Defined.

End ListenerLife.

(** ** The clipboard hook over a sequence of calls *)

Section ClipboardRunsProps.

Import Clipboard ClipboardRuns.

Lemma step_copied (st : State) (c : call) (t : string) :
  copiedText (step st c) = Some t -> copiedText st = Some t \/ writes c t.
Proof.
  destruct c as [nav text|]; simpl; [|discriminate].
  unfold copy. destruct (clipboard_of nav) as [clip|] eqn:Hc; simpl.
  - unfold Eff.try_catch, Eff.bind, await_write.
    destruct (writeText clip text) eqn:Hw; simpl; [|discriminate].
    intros [= <-]. right. exists nav, clip. auto.
  - auto.
Qed.

Lemma run_copied (cs : list call) (st : State) (t : string) :
  copiedText (run cs st) = Some t ->
  copiedText st = Some t \/ exists c, In c cs /\ writes c t.
Proof.
  revert st. induction cs as [|c cs IH]; intros st H; simpl in H; [now left|].
  apply IH in H. destruct H as [H|[c' [Hin Hw]]].
  - apply step_copied in H. destruct H as [H|H]; [now left|].
    right. exists c. split; [now left | exact H].
  - right. exists c'. split; [now right | exact Hw].
Qed.

(** The hook never reports as copied a text that was not written: after any
    sequence of [copy] and [reset] calls from the mounted state, meeting
    any clipboards, a non-null [copiedText] is the text of one of the
    [copy] calls whose clipboard write succeeded. *)
Theorem copiedText_was_written (cs : list call) (t : string) :
  copiedText (run cs initial) = Some t -> exists c, In c cs /\ writes c t.
Proof.
  intros H. apply run_copied in H. destruct H as [H|H]; [discriminate | exact H].
Qed.

Lemma copiedText_was_written_witness :
  exists c,
    In c [Copy (NavObject None) "a"; Copy (NavObject (Some Samples.clipboard_ok)) "b";
          Copy NavNullish "c"] /\
    writes c "b".
Proof.
  apply (copiedText_was_written
           [Copy (NavObject None) "a"; Copy (NavObject (Some Samples.clipboard_ok)) "b";
            Copy NavNullish "c"] "b").
  reflexivity.
Defined.

End ClipboardRunsProps.

(** ** The differ: further properties *)

Section DifferMore.

Import FormDevTools.

Lemma stringify_differs_irrefl (a : value) : stringify_differs a a = false.
Proof.
  unfold stringify_differs. apply negb_false_iff, bool_decide_eq_true. reflexivity.
Qed.

(** Nothing is reported when the current values are the original values:
    for every marker tree, also one with every leaf marked dirty,
    [getChangedFields] on twice the same snapshot is empty. *)
Theorem getChangedFields_same_snapshot (dirty values : value) :
  getChangedFields dirty values values = ∅.
Proof.
  apply map_eq. intros p. rewrite lookup_empty.
  destruct (truthy dirty) eqn:Hd; [|unfold getChangedFields; now rewrite Hd].
  destruct (truthy values) eqn:Hv;
    [|unfold getChangedFields; rewrite Hd, Hv; reflexivity].
  destruct (getChangedFields dirty values values !! p) as [e|] eqn:He; [|reflexivity].
  apply getChangedFields_lookup in He; [|assumption..].
  destruct He as [_ [Hdiff _]].
  unfold differs_at, resolve_original in Hdiff. rewrite Hv in Hdiff.
  rewrite stringify_differs_irrefl in Hdiff. discriminate.
Qed.

(** Every entry [getChangedFields] returns is a real change at a marked
    leaf: its path is the path of a leaf whose marker is literally [true],
    [to] is the current value there, [from] the original one, and the two
    are different values. *)
Theorem getChangedFields_entries_differ (dirty values originalValues : value)
    (p : string) (e : ChangedField) :
  getChangedFields dirty values originalValues !! p = Some e ->
  (exists chain, dirty_leaf dirty chain /\ path_from "" chain = p) /\
  to e = getNestedValue values p /\
  from e = resolve_original originalValues p /\
  from e <> to e.
Proof.
  intros He.
  destruct (truthy dirty) eqn:Hd;
    [|unfold getChangedFields in He; rewrite Hd in He; simpl in He;
      rewrite lookup_empty in He; discriminate].
  destruct (truthy values) eqn:Hv;
    [|unfold getChangedFields in He; rewrite Hd, Hv in He; simpl in He;
      rewrite lookup_empty in He; discriminate].
  apply getChangedFields_lookup in He; [|assumption..].
  destruct He as [Hreach [Hdiff ->]]. split; [exact Hreach|].
  simpl. split; [reflexivity|]. split; [reflexivity|].
  intros Heq. unfold differs_at in Hdiff. rewrite <- Heq in Hdiff.
  rewrite stringify_differs_irrefl in Hdiff. discriminate.
Qed.

Lemma getChangedFields_entries_differ_witness :
  from {| from := VNum 1; to := VNum 2 |} <> to {| from := VNum 1; to := VNum 2 |}.
Proof.
  refine (proj2 (proj2 (proj2
            (getChangedFields_entries_differ ex_dirty ex_current ex_original "a.b"
               {| from := VNum 1; to := VNum 2 |} _)))).
  vm_compute. reflexivity.
Defined.

Lemma split_dot_cons (path : string) : exists k rest, split_dot path = k :: rest.
Proof.
  induction path as [|c path [k [rest IH]]]; simpl; [eauto|].
  destruct (Ascii.eqb c "."); [eauto|]. rewrite IH. eauto.
Qed.

Lemma split_dot_app (p q : string) :
  split_dot (p +:+ "." +:+ q) = split_dot p ++ split_dot q.
Proof.
  induction p as [|c p IH].
  - reflexivity.
  - change (String c p +:+ "." +:+ q) with (String c (p +:+ "." +:+ q)).
    simpl. destruct (Ascii.eqb c ".").
    + now rewrite IH.
    + rewrite IH. destruct (split_dot_cons p) as [k [rest ->]]. reflexivity.
Qed.

(** Paths compose: resolving [p.q] is resolving [q] in what [p] resolves to;
    and once a prefix resolves to [undefined] or [null], every longer path
    resolves to [undefined] rather than failing. *)
Theorem getNestedValue_compose (obj : value) (p q : string) :
  getNestedValue obj (p +:+ "." +:+ q) = getNestedValue (getNestedValue obj p) q /\
  (getNestedValue obj p = VUndefined \/ getNestedValue obj p = VNull ->
   getNestedValue obj (p +:+ "." +:+ q) = VUndefined).
Proof.
  assert (H : getNestedValue obj (p +:+ "." +:+ q)
              = getNestedValue (getNestedValue obj p) q).
  { unfold getNestedValue. rewrite split_dot_app. apply fold_left_app. }
  split; [exact H|].
  intros Hp. rewrite H. unfold getNestedValue at 1.
  destruct (split_dot_cons q) as [k [rest ->]]. simpl.
  destruct Hp as [-> | ->]; simpl; apply resolve_keys_undefined.
Qed.

Lemma getNestedValue_compose_witness :
  getNestedValue (VObj [("a", VNull)]) ("a" +:+ "." +:+ "b.c") = VUndefined.
Proof.
  apply (proj2 (getNestedValue_compose (VObj [("a", VNull)]) "a" "b.c")).
  right. reflexivity.
Defined.

End DifferMore.
